(** * pack_payload: the payload packer of the survival workstation

    A shallow embedding of [esp32/scripts/pack_payload.py] and the
    properties of the binary payload it produces.

    The definitions:
    - [Py]       : the Python values the script manipulates (bytes, str,
                   slices, [ljust], [sorted], [str.encode], [struct.pack]);
    - [Utf8]     : a strict UTF-8 decoder, the reading side of [str.encode];
    - [Fs]       : the directory tree the script walks ([pathlib]);
    - [Io]       : printed lines, written files and raised exceptions;
    - [Pack]     : the script itself, function by function, over an
                   arbitrary [zlib.compress];
    - [Reader]   : the field accessors of a consumer of the payload;
    - [RefZlib]  : one concrete codec in zlib's framing, to run the script;
    - [Layout]   : names for what a run stores, and what is asked of zlib;
    - [Examples] : the trees the script is run on.

    Then the properties, module by module, and the claims C1 to C10. *)

From Stdlib Require Import String Ascii Strings.Byte.
From Stdlib Require Import ZArith List Bool Lia.
From Stdlib Require Import Sorting.Sorted Sorting.Permutation.
Import ListNotations.

Local Open Scope Z_scope.

(** ** Python values *)

Module Py.

Definition bytes := list byte.

(** A [str] is a sequence of code points.  A [str] obtained from a file
    name may hold lone surrogates (undecodable bytes of the name are
    mapped to U+DC80..U+DCFF by the interpreter). *)
Definition str := list Z.

Definition len {A} (l : list A) : Z := Z.of_nat (length l).

Definition byte_of_Z (z : Z) : byte :=
  match Byte.of_N (Z.to_N (z mod 256)) with
  | Some b => b
  | None => x00
  end.

Definition Z_of_byte (b : byte) : Z := Z.of_N (Byte.to_N b).

(** A literal such as ["esp"]: one code point per character. *)
Fixpoint str_of_string (s : string) : str :=
  match s with
  | EmptyString => []
  | String a s' => Z.of_N (N_of_ascii a) :: str_of_string s'
  end.

(** [b"..."] literals. *)
Definition bytes_of_string (s : string) : bytes :=
  map (fun c => byte_of_Z c) (str_of_string s).

(** An index of a slice, normalised as Python does: a negative index
    counts from the end, and the result is clamped to [0, len]. *)
Definition slice_index (n i : Z) : Z :=
  if i <? 0 then Z.max (i + n) 0 else Z.min i n.

(** [l[lo:hi]] *)
Definition slice {A} (lo hi : Z) (l : list A) : list A :=
  let n := len l in
  let lo' := slice_index n lo in
  let hi' := slice_index n hi in
  firstn (Z.to_nat (hi' - lo')) (skipn (Z.to_nat lo') l).

(** [l[:hi]] *)
Definition slice_to {A} (hi : Z) (l : list A) : list A := slice 0 hi l.

(** [b.ljust(width, fill)] *)
Definition ljust (width : Z) (fill : byte) (b : bytes) : bytes :=
  b ++ repeat fill (Z.to_nat (width - len b)).

(** [s.replace(old, new)] for one-character [old] and [new]. *)
Definition replace_char (old new : Z) (s : str) : str :=
  map (fun c => if c =? old then new else c) s.

(** [sep.join(parts)] *)
Fixpoint join (sep : str) (parts : list str) : str :=
  match parts with
  | [] => []
  | [p] => p
  | p :: rest => p ++ sep ++ join sep rest
  end.

(** [a < b] on sequences: lexicographic, a proper prefix is smaller. *)
Fixpoint lex_lt {A} (lt eq : A -> A -> bool) (a b : list A) : bool :=
  match a, b with
  | _, [] => false
  | [], _ :: _ => true
  | x :: a', y :: b' =>
      if lt x y then true
      else if eq x y then lex_lt lt eq a' b'
      else false
  end.

Definition str_lt : str -> str -> bool := lex_lt Z.ltb Z.eqb.

Fixpoint str_eqb (a b : str) : bool :=
  match a, b with
  | [], [] => true
  | x :: a', y :: b' => (x =? y) && str_eqb a' b'
  | _, _ => false
  end.

(** [sorted(l)] with the order [lt]: a stable insertion sort. *)
Section Sorted.
Context {A : Type} (lt : A -> A -> bool).

Fixpoint insert_sorted (x : A) (l : list A) : list A :=
  match l with
  | [] => [x]
  | y :: l' => if lt x y then x :: l else y :: insert_sorted x l'
  end.

Definition sorted (l : list A) : list A :=
  fold_left (fun acc x => insert_sorted x acc) l [].
End Sorted.

(** *** [str.encode("utf-8")] *)

Inductive exn :=
| UnicodeEncodeError
| StructError.

Inductive result (A : Type) :=
| Ok (a : A)
| Raise (e : exn).
Arguments Ok {A} a.
Arguments Raise {A} e.

Definition is_ok {A} (r : result A) : bool :=
  match r with
  | Ok _ => true
  | Raise _ => false
  end.

Definition is_surrogate (c : Z) : bool := (0xD800 <=? c) && (c <=? 0xDFFF).

(** The bytes of one code point; [None] where the codec refuses it. *)
Definition encode_cp (c : Z) : option bytes :=
  if c <? 0 then None
  else if c <? 0x80 then Some [byte_of_Z c]
  else if c <? 0x800 then
    Some [byte_of_Z (Z.lor 0xC0 (Z.shiftr c 6));
          byte_of_Z (Z.lor 0x80 (Z.land c 0x3F))]
  else if c <? 0x10000 then
    if is_surrogate c then None
    else
      Some [byte_of_Z (Z.lor 0xE0 (Z.shiftr c 12));
            byte_of_Z (Z.lor 0x80 (Z.land (Z.shiftr c 6) 0x3F));
            byte_of_Z (Z.lor 0x80 (Z.land c 0x3F))]
  else if c <? 0x110000 then
    Some [byte_of_Z (Z.lor 0xF0 (Z.shiftr c 18));
          byte_of_Z (Z.lor 0x80 (Z.land (Z.shiftr c 12) 0x3F));
          byte_of_Z (Z.lor 0x80 (Z.land (Z.shiftr c 6) 0x3F));
          byte_of_Z (Z.lor 0x80 (Z.land c 0x3F))]
  else None.

Fixpoint encode_utf8 (s : str) : result bytes :=
  match s with
  | [] => Ok []
  | c :: s' =>
      match encode_cp c with
      | None => Raise UnicodeEncodeError
      | Some bs =>
          match encode_utf8 s' with
          | Ok rest => Ok (bs ++ rest)
          | Raise e => Raise e
          end
      end
  end.

(** *** [struct.pack] with the ["<"] prefix: little-endian, no padding *)

(** The [n] low bytes of [x], least significant first. *)
Fixpoint le_bytes (n : nat) (x : Z) : bytes :=
  match n with
  | O => []
  | S n' => byte_of_Z x :: le_bytes n' (x / 256)
  end.

(** An unsigned field of [n] bytes: [struct.error] when out of range. *)
Definition pack_uint (n : nat) (x : Z) : result bytes :=
  if (0 <=? x) && (x <? 2 ^ (8 * Z.of_nat n))
  then Ok (le_bytes n x)
  else Raise StructError.

Definition pack_B := pack_uint 1.
Definition pack_H := pack_uint 2.
Definition pack_I := pack_uint 4.

(** ["<n>s"]: truncated or padded with null bytes to [n] bytes. *)
Definition pack_s (n : nat) (b : bytes) : bytes :=
  firstn n b ++ repeat x00 (n - length b).

End Py.

(** ** Strict UTF-8 decoding

    The reading side of [str.encode("utf-8")]: what [bytes.decode("utf-8")]
    accepts (RFC 3629: shortest form only, no surrogates, at most
    U+10FFFF).  A byte string is valid UTF-8 when [decode_utf8] returns a
    value. *)

Module Utf8.
Import Py.

Definition in_range (lo hi v : Z) : bool := (lo <=? v) && (v <=? hi).

Definition is_cont (v : Z) : bool := in_range 0x80 0xBF v.

(** The payload bits of a continuation byte. *)
Definition cont_bits (v : Z) : Z := Z.land v 0x3F.

Fixpoint decode_utf8 (l : bytes) : option str :=
  match l with
  | [] => Some []
  | b0 :: r0 =>
      let v0 := Z_of_byte b0 in
      if v0 <? 0x80 then option_map (cons v0) (decode_utf8 r0)
      else if v0 <? 0xC2 then None
      else if v0 <? 0xE0 then
        match r0 with
        | b1 :: r1 =>
            let v1 := Z_of_byte b1 in
            if is_cont v1 then
              option_map
                (cons (Z.lor (Z.shiftl (Z.land v0 0x1F) 6) (cont_bits v1)))
                (decode_utf8 r1)
            else None
        | _ => None
        end
      else if v0 <? 0xF0 then
        match r0 with
        | b1 :: b2 :: r2 =>
            let v1 := Z_of_byte b1 in
            let v2 := Z_of_byte b2 in
            let lo := if v0 =? 0xE0 then 0xA0 else 0x80 in
            let hi := if v0 =? 0xED then 0x9F else 0xBF in
            if in_range lo hi v1 && is_cont v2 then
              option_map
                (cons (Z.lor (Z.shiftl (Z.land v0 0x0F) 12)
                         (Z.lor (Z.shiftl (cont_bits v1) 6) (cont_bits v2))))
                (decode_utf8 r2)
            else None
        | _ => None
        end
      else if v0 <? 0xF5 then
        match r0 with
        | b1 :: b2 :: b3 :: r3 =>
            let v1 := Z_of_byte b1 in
            let v2 := Z_of_byte b2 in
            let v3 := Z_of_byte b3 in
            let lo := if v0 =? 0xF0 then 0x90 else 0x80 in
            let hi := if v0 =? 0xF4 then 0x8F else 0xBF in
            if in_range lo hi v1 && is_cont v2 && is_cont v3 then
              option_map
                (cons (Z.lor (Z.shiftl (Z.land v0 0x07) 18)
                         (Z.lor (Z.shiftl (cont_bits v1) 12)
                            (Z.lor (Z.shiftl (cont_bits v2) 6) (cont_bits v3)))))
                (decode_utf8 r3)
            else None
        | _ => None
        end
      else None
  end.

Definition valid_utf8 (l : bytes) : bool :=
  match decode_utf8 l with
  | Some _ => true
  | None => false
  end.

End Utf8.

(** ** The directory tree

    What [pathlib] shows of the file system: regular files and
    directories.  A [path] is the list of its components. *)

Module Fs.
Import Py.

#[warnings="-register-all"]
Inductive node :=
| File (data : bytes)
| Dir (entries : list (str * node)).

Definition path := list str.

Fixpoint find_entry (name : str) (entries : list (str * node)) : option node :=
  match entries with
  | [] => None
  | (n, child) :: rest =>
      if str_eqb n name then Some child else find_entry name rest
  end.

(** The node a path leads to, from the root of the tree. *)
Fixpoint lookup (root : node) (p : path) : option node :=
  match p with
  | [] => Some root
  | name :: p' =>
      match root with
      | File _ => None
      | Dir entries =>
          match find_entry name entries with
          | Some child => lookup child p'
          | None => None
          end
      end
  end.

(** [p.exists()] *)
Definition exists_ (root : node) (p : path) : bool :=
  match lookup root p with
  | Some _ => true
  | None => false
  end.

(** [p.is_file()] for a path known to lead to [n]. *)
Definition is_file (n : node) : bool :=
  match n with
  | File _ => true
  | Dir _ => false
  end.

(** [p.read_bytes()] for a path known to lead to the file [n]. *)
Definition read_bytes (n : node) : bytes :=
  match n with
  | File data => data
  | Dir _ => []
  end.

(** Every file and directory below [n], with its path from [n]. *)
Fixpoint descendants (n : node) : list (path * node) :=
  match n with
  | File _ => []
  | Dir entries =>
      (fix walk (es : list (str * node)) : list (path * node) :=
         match es with
         | [] => []
         | (name, child) :: es' =>
             (([name], child)
                :: map (fun pn => (name :: fst pn, snd pn)) (descendants child))
               ++ walk es'
         end) entries
  end.

(** [base.rglob("*")]: the paths found below [base], each starting with
    [base]; nothing when [base] is not a directory. *)
Definition rglob (root : node) (base : path) : list (path * node) :=
  match lookup root base with
  | Some n => map (fun pn => (base ++ fst pn, snd pn)) (descendants n)
  | None => []
  end.

(** [p < q] on paths compares the component lists. *)
Definition path_lt (p q : path) : bool := lex_lt str_lt str_eqb p q.

(** [p.relative_to(base)] for a path [p] that starts with [base]. *)
Definition relative_to (base p : path) : path := skipn (length base) p.

(** [str(p)] on a POSIX host. *)
Definition str_of_path (p : path) : str := join (str_of_string "/") p.

End Fs.

(** ** Effects: what a run prints, writes and raises *)

Module Io.
Import Py Fs.

(** The lines the script prints, with the values they show. *)
Inductive message :=
| MsgFound (arch_name : str) (esp_dir : path)
| MsgNoEspDirectories
| MsgPacking (arch_name : str)
| MsgNoFiles (esp_dir : path)
| MsgFile (rel_path : str) (orig_size comp_size : Z)
| MsgPayloadWritten (output : str) (size : Z)
| MsgExceedsPartition (size max_size : Z)
| MsgPartitionUsage (size max_size : Z).

Inductive effect :=
| Print (m : message)
| WriteBytes (output : str) (payload : bytes).

(** A computation: the effects performed, in order, and either a value
    or the exception that stopped it. *)
Definition io (A : Type) : Type := list effect * result A.

Definition ret {A} (a : A) : io A := ([], Ok a).

Definition bind {A B} (c : io A) (k : A -> io B) : io B :=
  match c with
  | (t, Ok a) => let (t', r) := k a in (t ++ t', r)
  | (t, Raise e) => (t, Raise e)
  end.

Definition print (m : message) : io unit := ([Print m], Ok tt).

Definition write_bytes (output : str) (payload : bytes) : io unit :=
  ([WriteBytes output payload], Ok tt).

(** A pure step that may raise. *)
Definition lift {A} (r : result A) : io A := ([], r).

Definition bind_result {A B} (r : result A) (k : A -> result B) : result B :=
  match r with
  | Ok a => k a
  | Raise e => Raise e
  end.

(** [for x in l: s = body(s, x)] *)
Fixpoint for_each {A S} (l : list A) (body : S -> A -> io S) (s : S) : io S :=
  match l with
  | [] => ret s
  | x :: l' => bind (body s x) (for_each l' body)
  end.

Definition trace {A} (c : io A) : list effect := fst c.
Definition outcome {A} (c : io A) : result A := snd c.

Definition is_write (e : effect) : bool :=
  match e with
  | WriteBytes _ _ => true
  | Print _ => false
  end.

(** The files a run has written, in order. *)
Definition writes (t : list effect) : list effect := filter is_write t.

(** A computation that writes no file. *)
Definition quiet {A} (c : io A) : Prop := writes (trace c) = [].

End Io.

Declare Scope io_scope.
Delimit Scope io_scope with io.
Notation "x <- c ;; k" := (Io.bind c (fun x => k))
  (at level 61, c at next level, right associativity) : io_scope.
Notation "c ;;; k" := (Io.bind c (fun _ => k))
  (at level 61, right associativity) : io_scope.
Notation "x <~ r ;; k" := (Io.bind_result r (fun x => k))
  (at level 61, r at next level, right associativity) : io_scope.

(** ** The script *)

Module Pack.
Import Py Fs Io.
Local Open Scope io_scope.

(** Files smaller than this are stored uncompressed. *)
Definition COMPRESS_THRESHOLD : Z := 4096.

(** The partition size checked at the end of [main]. *)
Definition max_size : Z := 0x290000.

(** [collect_files]: the loop over the sorted paths. *)
Fixpoint collect_loop (esp_path : path) (found : list (path * node))
  : list (str * bytes) :=
  match found with
  | [] => []
  | (filepath, n) :: found' =>
      if is_file n then
        let rel := relative_to esp_path filepath in
        (* forward slashes: chr 92 is the backslash, chr 47 the slash *)
        let rel_str := replace_char 92 47 (str_of_path rel) in
        let data := read_bytes n in
        (rel_str, data) :: collect_loop esp_path found'
      else collect_loop esp_path found'
  end.

Definition collect_files (fs : node) (esp_dir : path) : list (str * bytes) :=
  if negb (exists_ fs esp_dir) then []
  else
    collect_loop esp_dir
      (sorted (fun a b => path_lt (fst a) (fst b)) (rglob fs esp_dir)).

(** The shape shared by the two text fields: a field of [w] bytes filled
    from the encoded text [e], [(e[:w-1] + b"\x00").ljust(w, b"\x00")]. *)
Definition fixed_field (w : Z) (e : bytes) : bytes :=
  ljust w x00 (slice_to (w - 1) e ++ [x00]).

(** The path field of a manifest entry (the two assignments to
    [path_bytes]). *)
Definition path_field (rel_path : str) : result bytes :=
  e <~ encode_utf8 rel_path ;;
  Ok (ljust 128 x00 (slice_to 127 e ++ [x00])).

(** The name field of an architecture table entry (the two assignments
    to [name_bytes]). *)
Definition name_field (arch_name : str) : result bytes :=
  e <~ encode_utf8 arch_name ;;
  Ok (ljust 16 x00 (slice_to 15 e ++ [x00])).

(** [struct.pack("<128s I I", path_bytes, comp_size, orig_size)] *)
Definition pack_manifest_entry (path_bytes : bytes) (comp_size orig_size : Z)
  : result bytes :=
  c <~ pack_I comp_size ;;
  o <~ pack_I orig_size ;;
  Ok (pack_s 128 path_bytes ++ c ++ o).

(** [struct.pack("<16s I I", name_bytes, data_offset, file_count)] *)
Definition pack_arch_entry (name_bytes : bytes) (data_offset file_count : Z)
  : result bytes :=
  o <~ pack_I data_offset ;;
  c <~ pack_I file_count ;;
  Ok (pack_s 16 name_bytes ++ o ++ c).

(** [struct.pack("<4s B B H", b"SURV", 1, arch_count, 0)] *)
Definition pack_header (arch_count : Z) : result bytes :=
  v <~ pack_B 1 ;;
  n <~ pack_B arch_count ;;
  r <~ pack_H 0 ;;
  Ok (pack_s 4 (bytes_of_string "SURV") ++ v ++ n ++ r).

Section WithZlib.

(** [zlib.compress(data, level)], the one library call whose result the
    script looks into. *)
Variable zlib_compress : bytes -> Z -> bytes.

(** The raw deflate stream: the zlib stream less its 2-byte header and
    its 4-byte trailer. *)
Definition raw_deflate (data : bytes) : bytes :=
  slice 2 (-4) (zlib_compress data 9).

Definition compress_file (data : bytes) : bytes * Z :=
  if len data <? COMPRESS_THRESHOLD then (data, 0)
  else
    let compressed := raw_deflate data in
    if len compressed >=? len data then (data, 0)
    else (compressed, len compressed).

(** The body of the loop of [pack_arch], on the pair (manifest, data). *)
Definition pack_file (acc : bytes * bytes) (f : str * bytes)
  : io (bytes * bytes) :=
  let '(manifest, data) := acc in
  let '(rel_path, file_data) := f in
  let '(compressed, comp_size) := compress_file file_data in
  let orig_size := len file_data in
  path_bytes <- lift (path_field rel_path) ;;
  entry <- lift (pack_manifest_entry path_bytes comp_size orig_size) ;;
  print (MsgFile rel_path orig_size comp_size) ;;;
  ret (manifest ++ entry, data ++ compressed).

Definition pack_arch (fs : node) (name : str) (esp_dir : path)
  : io (bytes * bytes * Z) :=
  let files := collect_files fs esp_dir in
  match files with
  | [] =>
      print (MsgNoFiles esp_dir) ;;;
      ret ([], [], 0)
  | _ :: _ =>
      md <- for_each files pack_file ([], []) ;;
      ret (fst md, snd md, len files)
  end.

(** The first loop of [main]: the candidates whose directory exists. *)
Fixpoint find_arches (fs : node) (build_dir : path) (names : list str)
  : io (list (str * path)) :=
  match names with
  | [] => ret []
  | arch_name :: names' =>
      let esp_dir := build_dir ++ [arch_name; str_of_string "esp"] in
      if exists_ fs esp_dir then
        print (MsgFound arch_name esp_dir) ;;;
        arches <- find_arches fs build_dir names' ;;
        ret ((arch_name, esp_dir) :: arches)
      else find_arches fs build_dir names'
  end.

(** The state of the second loop of [main]. *)
Record table_state := {
  arch_table : bytes;
  arch_blobs : list bytes;
  data_offset : Z
}.

(** The body of the second loop of [main]. *)
Definition pack_entry (fs : node) (st : table_state) (a : str * path)
  : io table_state :=
  let '(arch_name, esp_dir) := a in
  print (MsgPacking arch_name) ;;;
  mdc <- pack_arch fs arch_name esp_dir ;;
  let '(manifest, data, file_count) := mdc in
  let blob := manifest ++ data in
  name_bytes <- lift (name_field arch_name) ;;
  entry <- lift (pack_arch_entry name_bytes (data_offset st) file_count) ;;
  ret {| arch_table := arch_table st ++ entry;
         arch_blobs := arch_blobs st ++ [blob];
         data_offset := data_offset st + len blob |}.

(** [main] from the header to the assembled payload. *)
Definition assemble (fs : node) (arches : list (str * path)) : io bytes :=
  header <- lift (pack_header (len arches)) ;;
  let arch_table_size := 24 * len arches in
  let st0 := {| arch_table := [];
                arch_blobs := [];
                data_offset := len header + arch_table_size |} in
  st <- for_each arches (pack_entry fs) st0 ;;
  ret (header ++ arch_table st ++ concat (arch_blobs st)).

(** [main] for a given list of candidate architectures; the result is
    the exit status. *)
Definition main_with (names : list str) (fs : node) (build_dir : path)
  (output : str) : io Z :=
  arches <- find_arches fs build_dir names ;;
  match arches with
  | [] =>
      print MsgNoEspDirectories ;;;
      ret 1
  | _ :: _ =>
      payload <- assemble fs arches ;;
      write_bytes output payload ;;;
      print (MsgPayloadWritten output (len payload)) ;;;
      if len payload >? max_size then
        print (MsgExceedsPartition (len payload) max_size) ;;;
        ret 1
      else
        print (MsgPartitionUsage (len payload) max_size) ;;;
        ret 0
  end.

(** The architectures [main] looks for. *)
Definition candidates : list str :=
  [str_of_string "aarch64"; str_of_string "x86_64"].

Definition main : node -> path -> str -> io Z := main_with candidates.

End WithZlib.

End Pack.

(** ** Reading a payload back

    The accessors of a consumer, after the format the script documents:
    an 8-byte header, 24-byte table entries, 136-byte manifest entries,
    little-endian integers. *)

Module Reader.
Import Py.

(** The value of a little-endian unsigned field. *)
Definition le_value (l : bytes) : Z :=
  fold_right (fun b acc => Z_of_byte b + 256 * acc) 0 l.

(** The [n] bytes at offset [ofs]. *)
Definition field (ofs n : Z) (l : bytes) : bytes :=
  firstn (Z.to_nat n) (skipn (Z.to_nat ofs) l).

Definition u8_at (ofs : Z) (l : bytes) : Z := le_value (field ofs 1 l).
Definition u32_at (ofs : Z) (l : bytes) : Z := le_value (field ofs 4 l).

Definition header_size : Z := 8.
Definition arch_entry_size : Z := 24.
Definition manifest_entry_size : Z := 136.

Definition header_arch_count (payload : bytes) : Z := u8_at 5 payload.

(** The [i]-th entry of the architecture table of a payload. *)
Definition arch_entry (i : Z) (payload : bytes) : bytes :=
  field (header_size + arch_entry_size * i) arch_entry_size payload.

Definition entry_name (e : bytes) : bytes := field 0 16 e.
Definition entry_offset (e : bytes) : Z := u32_at 16 e.
Definition entry_file_count (e : bytes) : Z := u32_at 20 e.

(** The [i]-th entry of a manifest. *)
Definition manifest_entry (i : Z) (manifest : bytes) : bytes :=
  field (manifest_entry_size * i) manifest_entry_size manifest.

Definition entry_path (e : bytes) : bytes := field 0 128 e.
Definition entry_compressed_size (e : bytes) : Z := u32_at 128 e.
Definition entry_original_size (e : bytes) : Z := u32_at 132 e.

(** The number of bytes a file takes in the data section: its compressed
    size, or its original size when the compressed size is the sentinel 0. *)
Definition stored_size (e : bytes) : Z :=
  if entry_compressed_size e =? 0 then entry_original_size e
  else entry_compressed_size e.

(** Where the data of the [i]-th file starts in the data section: the
    stored sizes of the files before it, summed over the manifest. *)
Fixpoint data_start (i : nat) (manifest : bytes) : Z :=
  match i with
  | O => 0
  | S j => data_start j manifest + stored_size (manifest_entry (Z.of_nat j) manifest)
  end.

End Reader.

(** ** A reference codec

    One concrete [zlib.compress] with its inverse, to run the script on
    concrete trees: a run-length code between the 2-byte header and the
    Adler-32 trailer of a zlib stream.  The body is a sequence of
    (count, byte) pairs, 1 <= count <= 255, closed by a zero count. *)

Module RefZlib.
Import Py.

Fixpoint rle (l : bytes) : bytes :=
  match l with
  | [] => [x00]
  | b :: l' =>
      match rle l' with
      | c :: b' :: rest =>
          if Byte.eqb b b' && (Z_of_byte c <? 255)
          then byte_of_Z (Z_of_byte c + 1) :: b' :: rest
          else x01 :: b :: c :: b' :: rest
      | r => x01 :: b :: r
      end
  end.

Fixpoint unrle (l : bytes) : option bytes :=
  match l with
  | [] => None
  | c :: l1 =>
      if Z_of_byte c =? 0 then Some []
      else
        match l1 with
        | [] => None
        | b :: rest =>
            option_map (app (repeat b (Z.to_nat (Z_of_byte c)))) (unrle rest)
        end
  end.

(** Adler-32 of [l], from the running sums [a] and [b]. *)
Fixpoint adler32 (a b : Z) (l : bytes) : Z :=
  match l with
  | [] => Z.lor (Z.shiftl b 16) a
  | x :: l' =>
      let a' := (a + Z_of_byte x) mod 65521 in
      adler32 a' ((b + a') mod 65521) l'
  end.

Definition compress (data : bytes) (level : Z) : bytes :=
  [x78; xda] ++ rle data ++ rev (le_bytes 4 (adler32 1 0 data)).

Definition inflate (raw : bytes) : option bytes := unrle raw.

End RefZlib.

(** ** What a run stores

    Names for the pieces of a payload, as the script computes them: the
    bytes a file is stored as, its manifest entry, the blob and the file
    count of an architecture. *)

Module Layout.
Import Py Fs Io Pack.
Local Open Scope io_scope.

Section WithZlib.
Variable zlib_compress : bytes -> Z -> bytes.

(** The bytes [pack_arch] appends to the data section for a file. *)
Definition stored (f : str * bytes) : bytes :=
  fst (compress_file zlib_compress (snd f)).

(** The value [pack_arch] writes in the compressed-size field of a file. *)
Definition comp_size (f : str * bytes) : Z :=
  snd (compress_file zlib_compress (snd f)).

(** The manifest entry [pack_arch] appends for a file. *)
Definition manifest_entry_of (f : str * bytes) : result bytes :=
  path_bytes <~ path_field (fst f) ;;
  pack_manifest_entry path_bytes (comp_size f) (len (snd f)).

(** The blob of an architecture: its manifest followed by its data. *)
Definition arch_blob (fs : node) (a : str * path) : bytes :=
  match outcome (pack_arch zlib_compress fs (fst a) (snd a)) with
  | Ok (manifest, data, _) => manifest ++ data
  | Raise _ => []
  end.

Definition arch_file_count (fs : node) (a : str * path) : Z :=
  match outcome (pack_arch zlib_compress fs (fst a) (snd a)) with
  | Ok (_, _, file_count) => file_count
  | Raise _ => 0
  end.

(** The table entry [main] writes for the architecture [a] when the
    running offset is [offset]. *)
Definition entry_written (fs : node) (offset : Z) (a : str * path) (e : bytes)
  : Prop :=
  exists name_bytes,
    name_field (fst a) = Ok name_bytes /\
    pack_arch_entry name_bytes offset (arch_file_count fs a) = Ok e.

(** The blobs of the architectures before the [i]-th, concatenated. *)
Definition blobs_before (fs : node) (arches : list (str * path)) (i : nat)
  : bytes :=
  concat (map (arch_blob fs) (firstn i arches)).

(** The zlib stream of [data] holds deflate data between its 2-byte
    header and its 4-byte trailer. *)
Definition zlib_nonempty (data : bytes) : Prop :=
  6 < len (zlib_compress data 9).

(** [zlib.compress(data, 9)] is a zlib stream for [data]: a 2-byte header,
    a raw deflate stream that [inflate] decodes to [data], and a 4-byte
    checksum. *)
Definition zlib_stream (inflate : bytes -> option bytes) (data : bytes)
  : Prop :=
  exists header raw trailer,
    zlib_compress data 9 = header ++ raw ++ trailer /\
    len header = 2 /\ len trailer = 4 /\
    raw <> [] /\ inflate raw = Some data.

(** A file whose manifest entry can be written: its path encodes and its
    size fits an unsigned 32-bit field. *)
Definition packable_file (f : str * bytes) : Prop :=
  (exists e, encode_utf8 (fst f) = Ok e) /\ len (snd f) < 2 ^ 32.

(** An architecture whose name encodes and whose files are packable. *)
Definition packable_arch (fs : node) (a : str * path) : Prop :=
  (exists e, encode_utf8 (fst a) = Ok e) /\
  Forall packable_file (collect_files fs (snd a)).

(** The length of a blob, from its files: 136 bytes of manifest and the
    stored bytes, for each. *)
Definition blob_size (files : list (str * bytes)) : Z :=
  fold_right (fun f acc => 136 + len (stored f) + acc) 0 files.

(** The length of a blob whose files are all stored as they are. *)
Definition raw_size (files : list (str * bytes)) : Z :=
  fold_right (fun f acc => 136 + len (snd f) + acc) 0 files.

(** The fatal condition of [main]: no candidate directory exists. *)
Definition no_architectures_found (names : list str) (fs : node)
  (build_dir : path) : Prop :=
  outcome (find_arches fs build_dir names) = Ok [].

(** The oversize condition of [main]: the payload assembled from the
    directories found is longer than the partition. *)
Definition payload_oversize (names : list str) (fs : node) (build_dir : path)
  (payload : bytes) : Prop :=
  exists arches,
    outcome (find_arches fs build_dir names) = Ok arches /\
    arches <> [] /\
    outcome (assemble zlib_compress fs arches) = Ok payload /\
    max_size < len payload.

End WithZlib.

End Layout.

(** ** Trees to run the script on *)

Module Examples.
Import Py Fs.

Definition lit := str_of_string.

Definition build_dir : path := [lit "build"].
Definition output : str := lit "payload.bin".
Definition aarch64_esp : path := [lit "build"; lit "aarch64"; lit "esp"].
Definition x86_64_esp : path := [lit "build"; lit "x86_64"; lit "esp"].

(** [build/aarch64/esp] holding [entries], and nothing else. *)
Definition aarch64_only (entries : list (str * node)) : node :=
  Dir [(lit "build", Dir [(lit "aarch64", Dir [(lit "esp", Dir entries)])])].

(** A build directory where nothing was built. *)
Definition fs_not_built : node := Dir [(lit "build", Dir [])].

(** [build/aarch64/esp] exists and is empty. *)
Definition fs_empty_esp : node := aarch64_only [].

Definition ten_bytes : bytes :=
  [x30; x31; x32; x33; x34; x35; x36; x37; x38; x39].

(** Two architectures: [aarch64/esp/a.txt] of 10 bytes, and
    [x86_64/esp] with [EFI/boot.efi] and [b.bin]. *)
Definition fs_two_arches : node :=
  Dir [(lit "build",
        Dir [(lit "x86_64",
              Dir [(lit "esp",
                    Dir [(lit "b.bin", File [x01; x02; x03]);
                         (lit "EFI", Dir [(lit "boot.efi", File [x4d; x5a])])])]);
             (lit "aarch64",
              Dir [(lit "esp", Dir [(lit "a.txt", File ten_bytes)])])])].

(** A file name of 126 letters [a] followed by U+00E9: 128 bytes of UTF-8,
    the last code point on bytes 126 and 127. *)
Definition long_name : str := repeat 97 126 ++ [233].

Definition fs_long_name : node := aarch64_only [(long_name, File ten_bytes)].

(** An architecture name of 14 letters [a] followed by U+00E9: 16 bytes of
    UTF-8. *)
Definition long_arch_name : str := repeat 97 14 ++ [233].

(** 4096 zero bytes: a file the reference codec shrinks. *)
Definition zeros : bytes := repeat x00 4096.

Definition fs_zeros : node :=
  aarch64_only [(lit "zero.bin", File zeros); (lit "a.txt", File ten_bytes)].

(** The name of the [i]-th of many files: [f] and three digits. *)
Definition file_name (i : nat) : str :=
  let n := Z.of_nat i in
  [102; 48 + (n / 100) mod 10; 48 + (n / 10) mod 10; 48 + n mod 10].

(** [count] files holding [data] each, as [build/aarch64/esp/f000] and so
    on, listed from the last name to the first. *)
Definition fs_files (count : nat) (data : bytes) : node :=
  aarch64_only (map (fun i => (file_name i, File data)) (rev (seq 0 count))).

(** 4095 bytes: a file below the compression threshold. *)
Definition block : bytes := repeat x00 4095.

(** 640 files of 4095 bytes: 2,620,800 bytes of data, which with their
    manifest entries are more than the partition holds, and none of which
    is handed to zlib. *)
Definition fs_many : node := fs_files 640 block.

End Examples.

(** ** Reading files back

    What a consumer does with a payload, after the format the script
    documents: find the table entry of an architecture, its manifest at
    the entry's offset, the data section behind the manifest, and in it
    the bytes of a file, inflated when the compressed size is not 0. *)

Module Unpack.
Import Py Utf8 Reader.

(** The text of a null-padded field: the bytes before the first null. *)
Fixpoint cstring (l : bytes) : bytes :=
  match l with
  | [] => []
  | b :: l' => if Byte.eqb b x00 then [] else b :: cstring l'
  end.

(** The text a field holds, decoded. *)
Definition read_text (f : bytes) : option str := decode_utf8 (cstring f).

(** The [i]-th file of an architecture, from its manifest and its data
    section (which may be followed by other bytes). *)
Definition read_file (inflate : bytes -> option bytes)
  (manifest data : bytes) (i : nat) : option bytes :=
  let e := manifest_entry (Z.of_nat i) manifest in
  let raw := field (data_start i manifest) (stored_size e) data in
  if entry_compressed_size e =? 0 then Some raw else inflate raw.

(** The manifest of the [a]-th architecture of a payload. *)
Definition manifest_of (payload : bytes) (a : nat) : bytes :=
  let e := arch_entry (Z.of_nat a) payload in
  field (entry_offset e) (manifest_entry_size * entry_file_count e) payload.

(** What follows the manifest of the [a]-th architecture. *)
Definition data_of (payload : bytes) (a : nat) : bytes :=
  let e := arch_entry (Z.of_nat a) payload in
  skipn (Z.to_nat (entry_offset e + manifest_entry_size * entry_file_count e))
    payload.

(** The [i]-th file of the [a]-th architecture of a payload. *)
Definition extract (inflate : bytes -> option bytes) (payload : bytes)
  (a i : nat) : option bytes :=
  read_file inflate (manifest_of payload a) (data_of payload a) i.

(** The path of the [i]-th file of the [a]-th architecture. *)
Definition extract_path (payload : bytes) (a i : nat) : option str :=
  read_text (entry_path (manifest_entry (Z.of_nat i) (manifest_of payload a))).

End Unpack.

(** ** Sizes before compression *)

Module Sizes.
Import Py Fs Pack Layout.

(** The length the blobs of the architectures would have if every file
    were stored as it is. *)
Definition raw_total (fs : node) (arches : list (str * path)) : Z :=
  fold_right (fun a acc => raw_size (collect_files fs (snd a)) + acc) 0 arches.

End Sizes.

(** ** Trees as the file system shows them

    A directory of a file system holds a name once.  Two trees show the
    same files when every path leads to the same kind of thing in both,
    whatever the order in which the directories list their entries. *)

Module FsShape.
Import Py Fs.

(** The names of [l] are pairwise different. *)
Fixpoint distinct (l : list str) : bool :=
  match l with
  | [] => true
  | x :: l' => negb (existsb (str_eqb x) l') && distinct l'
  end.

(** No directory of the tree holds a name twice. *)
Fixpoint wf (n : node) : bool :=
  match n with
  | File _ => true
  | Dir entries =>
      distinct (map fst entries)
      && (fix all (es : list (str * node)) : bool :=
            match es with
            | [] => true
            | (_, child) :: es' => wf child && all es'
            end) entries
  end.

(** What a path leads to. *)
Inductive kind :=
| Missing
| Regular (data : bytes)
| Directory.

Definition kind_at (root : node) (p : path) : kind :=
  match lookup root p with
  | None => Missing
  | Some (File data) => Regular data
  | Some (Dir _) => Directory
  end.

Fixpoint bytes_eqb (a b : bytes) : bool :=
  match a, b with
  | [], [] => true
  | x :: a', y :: b' => Byte.eqb x y && bytes_eqb a' b'
  | _, _ => false
  end.

(** Everything in [n1] is found in [n2] under the same name: a check
    that two trees show the same files runs it both ways. *)
Fixpoint covers (n1 n2 : node) {struct n1} : bool :=
  match n1, n2 with
  | File d1, File d2 => bytes_eqb d1 d2
  | Dir es1, Dir es2 =>
      (fix all (es : list (str * node)) : bool :=
         match es with
         | [] => true
         | (name, child) :: es' =>
             match find_entry name es2 with
             | Some child' => covers child child'
             | None => false
             end && all es'
         end) es1
  | _, _ => false
  end.

(** A name that holds neither a slash nor a backslash. *)
Definition plain_name (name : str) : bool :=
  negb (existsb (Z.eqb 47) name) && negb (existsb (Z.eqb 92) name).

(** Every name of the tree is plain. *)
Fixpoint plain (n : node) : bool :=
  match n with
  | File _ => true
  | Dir entries =>
      (fix all (es : list (str * node)) : bool :=
         match es with
         | [] => true
         | (name, child) :: es' => plain_name name && plain child && all es'
         end) entries
  end.

(** Every name below the directory [p] is plain. *)
Definition plain_below (root : node) (p : path) : bool :=
  match lookup root p with
  | Some n => plain n
  | None => true
  end.

End FsShape.

(** ** More trees *)

Module MoreExamples.
Import Py Fs Examples.

(** A file whose name holds a lone surrogate (U+DC80, an undecodable byte
    of the name on disk). *)
Definition fs_surrogate : node :=
  aarch64_only [(lit "ok.txt", File ten_bytes); ([110; 0xDC80], File ten_bytes)].

(** Both architectures; [x86_64] holds the 4096 zero bytes in a
    subdirectory. *)
Definition fs_both : node :=
  Dir [(lit "build",
        Dir [(lit "aarch64",
              Dir [(lit "esp", Dir [(lit "a.txt", File ten_bytes)])]);
             (lit "x86_64",
              Dir [(lit "esp",
                    Dir [(lit "EFI", Dir [(lit "zero.bin", File zeros)]);
                         (lit "b.bin", File [x01; x02; x03])])])])].

(** [fs_both] as another listing of the same directories would show it. *)
Definition fs_both_relisted : node :=
  Dir [(lit "build",
        Dir [(lit "x86_64",
              Dir [(lit "esp",
                    Dir [(lit "b.bin", File [x01; x02; x03]);
                         (lit "EFI", Dir [(lit "zero.bin", File zeros)])])]);
             (lit "aarch64",
              Dir [(lit "esp", Dir [(lit "a.txt", File ten_bytes)])])])].

(** A file whose name holds a backslash, beside a directory [a] that
    holds a file [b]. *)
Definition fs_backslash : node :=
  aarch64_only [(lit "a", Dir [(lit "b", File ten_bytes)]);
                ([97; 92; 98], File [x01])].

End MoreExamples.

(** * Properties *)

(** ** Bytes, lengths and fields *)

Module PyFacts.
Import Py Reader.

Lemma len_nil {A} : len (@nil A) = 0.
Proof. reflexivity. Qed.

Lemma len_cons {A} (x : A) l : len (x :: l) = 1 + len l.
Proof. unfold len. cbn [length]. lia. Qed.

Lemma len_app {A} (l l' : list A) : len (l ++ l') = len l + len l'.
Proof. unfold len. rewrite length_app. lia. Qed.

Lemma len_nonneg {A} (l : list A) : 0 <= len l.
Proof. unfold len. lia. Qed.

Lemma len_repeat {A} (x : A) n : len (repeat x n) = Z.of_nat n.
Proof. unfold len. now rewrite repeat_length. Qed.


Lemma len_concat_app (l : list bytes) (b : bytes) :
  len (concat (l ++ [b])) = len (concat l) + len b.
Proof. rewrite concat_app, len_app. cbn [concat]. now rewrite app_nil_r. Qed.

(** Records of [k] bytes laid end to end. *)
Lemma len_concat_sized k (chunks : list bytes) :
  Forall (fun c => len c = k) chunks -> len (concat chunks) = k * len chunks.
Proof.
  induction 1 as [|c chunks Hc _ IH]; [ cbn; lia | ].
  cbn [concat]. rewrite len_app, len_cons, IH, Hc. lia.
Qed.

Lemma Z_of_byte_range b : 0 <= Z_of_byte b < 256.
Proof.
  unfold Z_of_byte. pose proof (Byte.to_N_bounded b). lia.
Qed.

Lemma Z_of_byte_of_Z z : Z_of_byte (byte_of_Z z) = z mod 256.
Proof.
  unfold Z_of_byte, byte_of_Z.
  pose proof (Z.mod_pos_bound z 256 eq_refl) as Hm.
  destruct (Byte.of_N (Z.to_N (z mod 256))) as [b|] eqn:E.
  - apply Byte.to_of_N in E. rewrite E. lia.
  - apply Byte.of_N_None_iff in E. lia.
Qed.

Lemma Z_of_byte_of_Z_small z : 0 <= z < 256 -> Z_of_byte (byte_of_Z z) = z.
Proof. intros H. rewrite Z_of_byte_of_Z. now apply Z.mod_small. Qed.



(** *** Little-endian integers *)

Lemma length_le_bytes n x : length (le_bytes n x) = n.
Proof. revert x. induction n; intros; cbn; [ reflexivity | now rewrite IHn ]. Qed.

Lemma le_value_le_bytes n x :
  0 <= x < 2 ^ (8 * Z.of_nat n) -> le_value (le_bytes n x) = x.
Proof.
  revert x. induction n as [|n IH]; intros x Hx.
  - cbn in *. lia.
  - cbn [le_bytes le_value fold_right].
    fold (le_value (le_bytes n (x / 256))).
    rewrite Z_of_byte_of_Z, IH.
    + pose proof (Z.div_mod x 256). lia.
    + replace (8 * Z.of_nat (S n)) with (8 + 8 * Z.of_nat n) in Hx by lia.
      rewrite Z.pow_add_r in Hx by lia.
      change (2 ^ 8) with 256 in Hx.
      split; [ apply Z.div_pos; lia | apply Z.div_lt_upper_bound; lia ].
Qed.

Lemma pack_uint_ok n x b :
  pack_uint n x = Ok b ->
  b = le_bytes n x /\ 0 <= x < 2 ^ (8 * Z.of_nat n).
Proof.
  unfold pack_uint. intros H.
  destruct ((0 <=? x) && (x <? 2 ^ (8 * Z.of_nat n))) eqn:E; [ | discriminate ].
  apply andb_true_iff in E. destruct E as [E1 E2].
  apply Z.leb_le in E1. apply Z.ltb_lt in E2.
  inversion H. auto.
Qed.

Lemma pack_uint_in_range n x :
  0 <= x < 2 ^ (8 * Z.of_nat n) -> pack_uint n x = Ok (le_bytes n x).
Proof.
  intros [H1 H2]. unfold pack_uint.
  apply Z.leb_le in H1. apply Z.ltb_lt in H2. now rewrite H1, H2.
Qed.

Lemma pack_I_ok x b :
  pack_I x = Ok b -> length b = 4%nat /\ le_value b = x /\ 0 <= x < 2 ^ 32.
Proof.
  intros H. apply pack_uint_ok in H. destruct H as [-> Hx].
  split; [ apply length_le_bytes | ].
  split; [ now apply le_value_le_bytes | exact Hx ].
Qed.


Lemma pack_s_exact n b : length b = n -> pack_s n b = b.
Proof.
  intros H. unfold pack_s. rewrite firstn_all2 by lia.
  replace (n - length b)%nat with 0%nat by lia. cbn. apply app_nil_r.
Qed.

(** *** Fields of a byte string *)

Lemma field_app_skip (a b : bytes) ofs n :
  0 <= ofs -> field (len a + ofs) n (a ++ b) = field ofs n b.
Proof.
  intros H. unfold field, len. f_equal.
  rewrite skipn_app.
  replace (Z.to_nat (Z.of_nat (length a) + ofs)) with (length a + Z.to_nat ofs)%nat by lia.
  rewrite skipn_all2 by lia. cbn [app].
  f_equal. lia.
Qed.

Lemma field_prefix (a b : bytes) : field 0 (len a) (a ++ b) = a.
Proof.
  unfold field, len. cbn [Z.to_nat skipn]. rewrite Nat2Z.id.
  rewrite firstn_app, firstn_all, Nat.sub_diag. cbn. apply app_nil_r.
Qed.

Lemma field_inside (a b c : bytes) ofs n :
  ofs = len a -> n = len b -> field ofs n (a ++ b ++ c) = b.
Proof.
  intros -> ->. replace (len a) with (len a + 0) by lia.
  rewrite field_app_skip by lia. apply field_prefix.
Qed.

Lemma field_within (a : bytes) (b : bytes) ofs n :
  0 <= ofs -> 0 <= n -> ofs + n <= len a -> field ofs n (a ++ b) = field ofs n a.
Proof.
  intros H1 H2 H3. unfold field, len in *.
  rewrite skipn_app, firstn_app.
  rewrite length_skipn.
  replace (Z.to_nat n - (length a - Z.to_nat ofs))%nat with 0%nat by lia.
  cbn [firstn]. apply app_nil_r.
Qed.


End PyFacts.

(** ** UTF-8: decoding what [encode_utf8] wrote *)

Module Utf8Facts.
Import Py Utf8 PyFacts.

Lemma land_shifted_low hi lo k :
  0 <= k -> 0 <= lo < 2 ^ k -> Z.land (hi * 2 ^ k) lo = 0.
Proof.
  intros Hk Hlo. apply Z.bits_inj'. intros n Hn.
  rewrite Z.land_spec, Z.bits_0.
  destruct (Z.lt_ge_cases n k) as [Hlt|Hge].
  - rewrite Z.mul_pow2_bits_low by lia. reflexivity.
  - destruct (Z.eq_dec lo 0) as [->|Hne].
    + rewrite Z.bits_0. apply andb_false_r.
    + rewrite (Z.bits_above_log2 lo n); [ apply andb_false_r | lia | ].
      apply Z.log2_lt_pow2; [ lia | ].
      apply Z.lt_le_trans with (2 ^ k); [ lia | ].
      apply Z.pow_le_mono_r; lia.
Qed.

Lemma lor_shifted hi lo k :
  0 <= k -> 0 <= lo < 2 ^ k -> Z.lor (hi * 2 ^ k) lo = hi * 2 ^ k + lo.
Proof.
  intros Hk Hlo.
  pose proof (Z.add_lor_land (hi * 2 ^ k) lo) as H.
  rewrite land_shifted_low in H by assumption. lia.
Qed.

Lemma lor_0x80 x : 0 <= x < 64 -> Z.lor 0x80 x = 0x80 + x.
Proof. intros H. apply (lor_shifted 2 x 6); lia. Qed.

Lemma lor_0xC0 x : 0 <= x < 64 -> Z.lor 0xC0 x = 0xC0 + x.
Proof. intros H. apply (lor_shifted 3 x 6); lia. Qed.

Lemma lor_0xE0 x : 0 <= x < 16 -> Z.lor 0xE0 x = 0xE0 + x.
Proof. intros H. apply (lor_shifted 14 x 4); lia. Qed.

Lemma lor_0xF0 x : 0 <= x < 8 -> Z.lor 0xF0 x = 0xF0 + x.
Proof. intros H. apply (lor_shifted 30 x 3); lia. Qed.

Lemma lor_shiftl a b k :
  0 <= k -> 0 <= b < 2 ^ k -> Z.lor (Z.shiftl a k) b = a * 2 ^ k + b.
Proof.
  intros Hk Hb. rewrite Z.shiftl_mul_pow2 by lia. now apply lor_shifted.
Qed.

Lemma land_mask x k : 0 <= k -> Z.land x (Z.ones k) = x mod 2 ^ k.
Proof. apply Z.land_ones. Qed.

Lemma land_0x3F x : Z.land x 0x3F = x mod 64.
Proof. apply (land_mask x 6). lia. Qed.

Lemma land_0x1F x : Z.land x 0x1F = x mod 32.
Proof. apply (land_mask x 5). lia. Qed.

Lemma land_0x0F x : Z.land x 0x0F = x mod 16.
Proof. apply (land_mask x 4). lia. Qed.

Lemma land_0x07 x : Z.land x 0x07 = x mod 8.
Proof. apply (land_mask x 3). lia. Qed.

Lemma shiftr_6 x : Z.shiftr x 6 = x / 64.
Proof. apply (Z.shiftr_div_pow2 x 6). lia. Qed.

Lemma shiftr_12 x : Z.shiftr x 12 = x / 4096.
Proof. apply (Z.shiftr_div_pow2 x 12). lia. Qed.

Lemma shiftr_18 x : Z.shiftr x 18 = x / 262144.
Proof. apply (Z.shiftr_div_pow2 x 18). lia. Qed.

(** The values of the bytes [encode_cp] writes. *)

Ltac euclid := Z.div_mod_to_equations; lia.

Lemma lead2_value c :
  0x80 <= c < 0x800 ->
  Z_of_byte (byte_of_Z (Z.lor 0xC0 (Z.shiftr c 6))) = 0xC0 + c / 64.
Proof.
  intros H. rewrite shiftr_6, lor_0xC0 by euclid.
  apply Z_of_byte_of_Z_small. euclid.
Qed.

Lemma lead3_value c :
  0x800 <= c < 0x10000 ->
  Z_of_byte (byte_of_Z (Z.lor 0xE0 (Z.shiftr c 12))) = 0xE0 + c / 4096.
Proof.
  intros H. rewrite shiftr_12, lor_0xE0 by euclid.
  apply Z_of_byte_of_Z_small. euclid.
Qed.

Lemma lead4_value c :
  0x10000 <= c < 0x110000 ->
  Z_of_byte (byte_of_Z (Z.lor 0xF0 (Z.shiftr c 18))) = 0xF0 + c / 262144.
Proof.
  intros H. rewrite shiftr_18, lor_0xF0 by euclid.
  apply Z_of_byte_of_Z_small. euclid.
Qed.

Lemma cont_value x :
  Z_of_byte (byte_of_Z (Z.lor 0x80 (Z.land x 0x3F))) = 0x80 + x mod 64.
Proof.
  rewrite land_0x3F, lor_0x80 by euclid.
  apply Z_of_byte_of_Z_small. euclid.
Qed.

Lemma cont_is_cont x : is_cont (0x80 + x mod 64) = true.
Proof.
  unfold is_cont, in_range. apply andb_true_iff.
  split; apply Z.leb_le; euclid.
Qed.

Lemma cont_bits_cont x : cont_bits (0x80 + x mod 64) = x mod 64.
Proof. unfold cont_bits. rewrite land_0x3F. euclid. Qed.

Lemma in_range_true lo hi v : lo <= v <= hi -> in_range lo hi v = true.
Proof.
  intros [H1 H2]. unfold in_range. apply andb_true_iff.
  split; now apply Z.leb_le.
Qed.

(** One code point: the decoder reads back what [encode_cp] wrote. *)
Ltac some_inj :=
  let E := fresh "E" in
  intros E;
  match type of E with
  | Some ?a = Some ?b => replace b with a by congruence
  end;
  clear E.

Ltac expose_decode :=
  repeat match goal with
    | |- context [byte_of_Z ?x] =>
        let b := fresh "b" in remember (byte_of_Z x) as b
    end;
  cbn [app decode_utf8]; subst.

Lemma decode_encode_cp c bs r :
  encode_cp c = Some bs ->
  decode_utf8 (bs ++ r) = option_map (cons c) (decode_utf8 r).
Proof.
  unfold encode_cp.
  destruct (Z.ltb_spec c 0); [ discriminate | ].
  destruct (Z.ltb_spec c 0x80).
  { some_inj. expose_decode.
    rewrite Z_of_byte_of_Z_small by lia.
    destruct (Z.ltb_spec c 0x80); [ reflexivity | lia ]. }
  destruct (Z.ltb_spec c 0x800).
  { some_inj. expose_decode.
    rewrite lead2_value, cont_value by lia.
    destruct (Z.ltb_spec (0xC0 + c / 64) 0x80); [ euclid | ].
    destruct (Z.ltb_spec (0xC0 + c / 64) 0xC2); [ euclid | ].
    destruct (Z.ltb_spec (0xC0 + c / 64) 0xE0); [ | euclid ].
    rewrite cont_is_cont, cont_bits_cont, land_0x1F.
    rewrite lor_shiftl by euclid.
    replace ((0xC0 + c / 64) mod 32 * 2 ^ 6 + c mod 64) with c by euclid.
    reflexivity. }
  destruct (Z.ltb_spec c 0x10000).
  { unfold is_surrogate.
    destruct (Z.leb_spec 0xD800 c); cbn [andb];
      [ destruct (Z.leb_spec c 0xDFFF); [ discriminate | ] | ].
    all: some_inj; expose_decode.
    all: rewrite lead3_value, !cont_value by lia.
    all: rewrite shiftr_6.
    all: destruct (Z.ltb_spec (0xE0 + c / 4096) 0x80); [ euclid | ].
    all: destruct (Z.ltb_spec (0xE0 + c / 4096) 0xC2); [ euclid | ].
    all: destruct (Z.ltb_spec (0xE0 + c / 4096) 0xE0); [ euclid | ].
    all: destruct (Z.ltb_spec (0xE0 + c / 4096) 0xF0); [ | euclid ].
    all: rewrite in_range_true, cont_is_cont, !cont_bits_cont, land_0x0F;
      [ | destruct (Z.eqb_spec (0xE0 + c / 4096) 0xE0);
          destruct (Z.eqb_spec (0xE0 + c / 4096) 0xED); euclid ].
    all: cbn [andb].
    all: rewrite (lor_shiftl (c / 64 mod 64) (c mod 64) 6) by euclid.
    all: rewrite lor_shiftl by euclid.
    all: replace ((0xE0 + c / 4096) mod 16 * 2 ^ 12
                  + (c / 64 mod 64 * 2 ^ 6 + c mod 64)) with c by euclid.
    all: reflexivity. }
  destruct (Z.ltb_spec c 0x110000); [ | discriminate ].
  some_inj. expose_decode.
  rewrite lead4_value, !cont_value by lia.
  rewrite shiftr_6, shiftr_12.
  destruct (Z.ltb_spec (0xF0 + c / 262144) 0x80); [ euclid | ].
  destruct (Z.ltb_spec (0xF0 + c / 262144) 0xC2); [ euclid | ].
  destruct (Z.ltb_spec (0xF0 + c / 262144) 0xE0); [ euclid | ].
  destruct (Z.ltb_spec (0xF0 + c / 262144) 0xF0); [ euclid | ].
  destruct (Z.ltb_spec (0xF0 + c / 262144) 0xF5); [ | euclid ].
  rewrite in_range_true, !cont_is_cont, !cont_bits_cont, land_0x07;
    [ | destruct (Z.eqb_spec (0xF0 + c / 262144) 0xF0);
        destruct (Z.eqb_spec (0xF0 + c / 262144) 0xF4); euclid ].
  cbn [andb].
  rewrite (lor_shiftl (c / 64 mod 64) (c mod 64) 6) by euclid.
  rewrite (lor_shiftl (c / 4096 mod 64) _ 12) by euclid.
  rewrite lor_shiftl by euclid.
  replace ((0xF0 + c / 262144) mod 8 * 2 ^ 18
           + (c / 4096 mod 64 * 2 ^ 12
              + (c / 64 mod 64 * 2 ^ 6 + c mod 64))) with c by euclid.
  reflexivity.
Qed.

End Utf8Facts.

(** ** The fixed-width text fields *)

Module FieldFacts.
Import Py Utf8 Pack PyFacts Utf8Facts.

Lemma encode_utf8_app p q :
  encode_utf8 (p ++ q) =
  Io.bind_result (encode_utf8 p) (fun ep =>
  Io.bind_result (encode_utf8 q) (fun eq => Ok (ep ++ eq))).
Proof.
  induction p as [|c p IH]; cbn [app encode_utf8 Io.bind_result].
  - destruct (encode_utf8 q); reflexivity.
  - destruct (encode_cp c) as [bs|]; [ | reflexivity ].
    rewrite IH. destruct (encode_utf8 p); cbn [Io.bind_result]; [ | reflexivity ].
    destruct (encode_utf8 q); cbn [Io.bind_result]; [ | reflexivity ].
    now rewrite app_assoc.
Qed.

(** Decoding reads back an encoded string, whatever follows it. *)
Lemma decode_encode p : forall ep r,
  encode_utf8 p = Ok ep ->
  decode_utf8 (ep ++ r) = option_map (app p) (decode_utf8 r).
Proof.
  induction p as [|c p IH]; intros ep r; cbn [encode_utf8].
  - intros [= <-]. cbn [app]. destruct (decode_utf8 r); reflexivity.
  - destruct (encode_cp c) as [bs|] eqn:Ec; [ | discriminate ].
    destruct (encode_utf8 p) as [rest|] eqn:Ep; [ | discriminate ].
    intros [= <-]. rewrite <- app_assoc.
    rewrite (decode_encode_cp c bs _ Ec), (IH rest r eq_refl).
    destruct (decode_utf8 r); reflexivity.
Qed.

Lemma slice_to_firstn {A} n (l : list A) :
  0 <= n -> slice_to n l = firstn (Z.to_nat n) l.
Proof.
  intros Hn. unfold slice_to, slice, slice_index.
  change (0 <? 0) with false. cbv iota.
  destruct (Z.ltb_spec n 0); [ lia | ].
  pose proof (len_nonneg l) as Hl.
  rewrite (Z.min_l 0) by lia. cbn [Z.to_nat skipn].
  rewrite Z.sub_0_r.
  destruct (Z.le_gt_cases n (len l)).
  - now rewrite Z.min_l by lia.
  - rewrite Z.min_r by lia. unfold len in *.
    rewrite Nat2Z.id, firstn_all, firstn_all2 by lia. reflexivity.
Qed.

Lemma nth_repeat_lt {A} (a d : A) m n :
  (n < m)%nat -> nth n (repeat a m) d = a.
Proof.
  revert n. induction m; intros n H; [ lia | ].
  destruct n; cbn; [ reflexivity | apply IHm; lia ].
Qed.

Section FixedField.
Variable w : Z.
Hypothesis w_pos : 0 < w.

Lemma fixed_field_zeros e :
  fixed_field w e =
  firstn (Z.to_nat (w - 1)) e
    ++ repeat x00 (Z.to_nat (w - Z.min (w - 1) (len e))).
Proof.
  unfold fixed_field, ljust. rewrite slice_to_firstn by lia.
  rewrite <- app_assoc. f_equal.
  rewrite len_app. unfold len at 1. rewrite length_firstn.
  change (len [x00]) with 1.
  replace (Z.to_nat (w - Z.min (w - 1) (len e)))
    with (S (Z.to_nat (w - (Z.of_nat (Nat.min (Z.to_nat (w - 1)) (length e)) + 1))))
    by (unfold len; lia).
  reflexivity.
Qed.

Lemma fixed_field_len e : len (fixed_field w e) = w.
Proof.
  rewrite fixed_field_zeros, len_app, len_repeat.
  unfold len. rewrite length_firstn. lia.
Qed.

Lemma fixed_field_last e :
  nth (Z.to_nat (w - 1)) (fixed_field w e) x01 = x00.
Proof.
  rewrite fixed_field_zeros.
  rewrite app_nth2 by (rewrite length_firstn; lia).
  apply nth_repeat_lt. rewrite length_firstn. unfold len. lia.
Qed.

Lemma fixed_field_has_null e : In x00 (fixed_field w e).
Proof.
  unfold fixed_field, ljust. apply in_or_app. left.
  apply in_or_app. right. now left.
Qed.

(** A text that fills the budget or more is cut after [w - 1] bytes. *)
Lemma fixed_field_cut e :
  w - 1 <= len e -> fixed_field w e = firstn (Z.to_nat (w - 1)) e ++ [x00].
Proof.
  intros H. rewrite fixed_field_zeros.
  rewrite Z.min_l by lia.
  replace (w - (w - 1)) with 1 by lia. reflexivity.
Qed.
End FixedField.

Lemma path_field_eq s :
  path_field s = Io.bind_result (encode_utf8 s) (fun e => Ok (fixed_field 128 e)).
Proof. reflexivity. Qed.

Lemma name_field_eq s :
  name_field s = Io.bind_result (encode_utf8 s) (fun e => Ok (fixed_field 16 e)).
Proof. reflexivity. Qed.

Lemma path_field_ok s f :
  path_field s = Ok f ->
  exists e, encode_utf8 s = Ok e /\ f = fixed_field 128 e /\ length f = 128%nat.
Proof.
  rewrite path_field_eq. destruct (encode_utf8 s) as [e|]; [ | discriminate ].
  intros [= <-]. exists e. split; [ reflexivity | split; [ reflexivity | ] ].
  pose proof (fixed_field_len 128 eq_refl e) as H. unfold len in H. lia.
Qed.

Lemma name_field_ok s f :
  name_field s = Ok f ->
  exists e, encode_utf8 s = Ok e /\ f = fixed_field 16 e /\ length f = 16%nat.
Proof.
  rewrite name_field_eq. destruct (encode_utf8 s) as [e|]; [ | discriminate ].
  intros [= <-]. exists e. split; [ reflexivity | split; [ reflexivity | ] ].
  pose proof (fixed_field_len 16 eq_refl e) as H. unfold len in H. lia.
Qed.

End FieldFacts.

(** ** Computations: sequencing and loops *)

Module IoFacts.
Import Py Io.

Lemma bind_ok {A B} (c : io A) (k : A -> io B) t b :
  bind c k = (t, Ok b) ->
  exists t1 a t2, c = (t1, Ok a) /\ k a = (t2, Ok b) /\ t = t1 ++ t2.
Proof.
  destruct c as [t1 [a|e]]; cbn [bind]; [ | discriminate ].
  destruct (k a) as [t2 r] eqn:Ek. intros [= <- ->].
  exists t1, a, t2. auto.
Qed.

Lemma bind_eq {A B} (c : io A) (k : A -> io B) t1 a t2 r :
  c = (t1, Ok a) -> k a = (t2, r) -> bind c k = (t1 ++ t2, r).
Proof. intros -> Hk. cbn [bind]. now rewrite Hk. Qed.

Lemma lift_ok {A} (r : result A) t a : lift r = (t, Ok a) -> t = [] /\ r = Ok a.
Proof. unfold lift. intros [= <- ->]. auto. Qed.

Lemma bind_result_ok {A B} (r : result A) (k : A -> result B) b :
  bind_result r k = Ok b -> exists a, r = Ok a /\ k a = Ok b.
Proof. destruct r as [a|e]; cbn; [ eauto | discriminate ]. Qed.

Lemma for_each_cons_ok {A S} (x : A) l (body : S -> A -> io S) s t s' :
  for_each (x :: l) body s = (t, Ok s') ->
  exists t1 s1 t2,
    body s x = (t1, Ok s1) /\ for_each l body s1 = (t2, Ok s') /\ t = t1 ++ t2.
Proof. cbn [for_each]. apply bind_ok. Qed.

End IoFacts.

(** ** [compress_file] *)

Module CompressFacts.
Import Py Pack Layout PyFacts.

Lemma len_slice_frame {A} (l : list A) :
  len (slice 2 (-4) l) = Z.max 0 (len l - 6).
Proof.
  unfold slice, slice_index.
  change (2 <? 0) with false. change (-4 <? 0) with true. cbv iota.
  unfold len at 1. rewrite length_firstn, length_skipn.
  pose proof (len_nonneg l). unfold len in *. lia.
Qed.

(** Slicing [[2:-4]] takes a 2-byte header and a 4-byte trailer off. *)
Lemma slice_frame {A} (header raw trailer : list A) :
  len header = 2 -> len trailer = 4 ->
  slice 2 (-4) (header ++ raw ++ trailer) = raw.
Proof.
  intros Hh Ht. unfold slice, slice_index.
  change (2 <? 0) with false. change (-4 <? 0) with true. cbv iota.
  rewrite !len_app, Hh, Ht. pose proof (len_nonneg raw) as Hr.
  rewrite Z.min_l, Z.max_l by lia.
  rewrite skipn_app. unfold len in Hh.
  replace (Z.to_nat 2) with (length header) by lia.
  rewrite skipn_all, Nat.sub_diag. cbn [skipn app].
  replace (Z.to_nat (-4 + (2 + (len raw + 4)) - 2)) with (length raw)
    by (unfold len; lia).
  rewrite firstn_app, firstn_all, Nat.sub_diag. cbn [firstn]. apply app_nil_r.
Qed.

Section WithZlib.
Variable zlib_compress : bytes -> Z -> bytes.

Lemma compress_file_small data :
  len data < COMPRESS_THRESHOLD -> compress_file zlib_compress data = (data, 0).
Proof.
  intros H. unfold compress_file.
  destruct (Z.ltb_spec (len data) COMPRESS_THRESHOLD); [ reflexivity | lia ].
Qed.

Lemma compress_file_discard data :
  COMPRESS_THRESHOLD <= len data -> len data <= len (raw_deflate zlib_compress data) ->
  compress_file zlib_compress data = (data, 0).
Proof.
  intros H1 H2. unfold compress_file.
  destruct (Z.ltb_spec (len data) COMPRESS_THRESHOLD); [ reflexivity | ].
  cbv zeta. unfold Z.geb.
  destruct (Z.compare_spec (len (raw_deflate zlib_compress data)) (len data));
    first [ reflexivity | lia ].
Qed.

Lemma compress_file_keep data :
  COMPRESS_THRESHOLD <= len data -> len (raw_deflate zlib_compress data) < len data ->
  compress_file zlib_compress data = (raw_deflate zlib_compress data, len (raw_deflate zlib_compress data)).
Proof.
  intros H1 H2. unfold compress_file.
  destruct (Z.ltb_spec (len data) COMPRESS_THRESHOLD); [ lia | ].
  cbv zeta. unfold Z.geb.
  destruct (Z.compare_spec (len (raw_deflate zlib_compress data)) (len data));
    first [ reflexivity | lia ].
Qed.

(** The two forms of a result. *)
Lemma compress_file_cases data :
  compress_file zlib_compress data = (data, 0) \/
  (COMPRESS_THRESHOLD <= len data /\
   len (raw_deflate zlib_compress data) < len data /\
   compress_file zlib_compress data = (raw_deflate zlib_compress data, len (raw_deflate zlib_compress data))).
Proof.
  destruct (Z.lt_ge_cases (len data) COMPRESS_THRESHOLD).
  - left. now apply compress_file_small.
  - destruct (Z.lt_ge_cases (len (raw_deflate zlib_compress data)) (len data)).
    + right. auto using compress_file_keep.
    + left. now apply compress_file_discard.
Qed.

Lemma raw_deflate_nonempty data :
  zlib_nonempty zlib_compress data -> 0 < len (raw_deflate zlib_compress data).
Proof.
  unfold zlib_nonempty, raw_deflate. rewrite len_slice_frame. lia.
Qed.

Lemma raw_deflate_stream inflate data :
  zlib_stream zlib_compress inflate data ->
  inflate (raw_deflate zlib_compress data) = Some data /\ zlib_nonempty zlib_compress data.
Proof.
  intros (header & raw & trailer & Hz & Hh & Ht & Hne & Hi).
  unfold raw_deflate, zlib_nonempty. rewrite Hz.
  rewrite slice_frame by assumption. split; [ exact Hi | ].
  rewrite !len_app.
  destruct raw; [ congruence | rewrite len_cons ].
  pose proof (len_nonneg raw). lia.
Qed.

(** The size field tells how many bytes are stored. *)
Lemma stored_len (f : str * bytes) :
  (COMPRESS_THRESHOLD <= len (snd f) -> zlib_nonempty zlib_compress (snd f)) ->
  len (stored zlib_compress f) =
  if comp_size zlib_compress f =? 0 then len (snd f)
  else comp_size zlib_compress f.
Proof.
  intros Hz. unfold stored, comp_size.
  destruct (compress_file_cases (snd f)) as [E|(H1 & H2 & E)];
    rewrite E; cbn [fst snd].
  - reflexivity.
  - pose proof (raw_deflate_nonempty _ (Hz H1)).
    destruct (Z.eqb_spec (len (raw_deflate zlib_compress (snd f))) 0); [ lia | reflexivity ].
Qed.

Lemma comp_size_range (f : str * bytes) : 0 <= comp_size zlib_compress f <= len (snd f).
Proof.
  unfold comp_size. pose proof (len_nonneg (snd f)).
  destruct (compress_file_cases (snd f)) as [E|(H1 & H2 & E)];
    rewrite E; cbn [snd]; [ lia | ].
  pose proof (len_nonneg (raw_deflate zlib_compress (snd f))). lia.
Qed.

End WithZlib.

End CompressFacts.

(** ** [pack_arch]: the manifest and the data section *)

Module PackArchFacts.
Import Py Fs Io Pack Reader Layout PyFacts FieldFacts IoFacts CompressFacts.

(** Equal-sized records laid end to end: the [i]-th one is the field at
    [k * i]. *)
Lemma field_chunk k (chunks : list bytes) : forall i e rest,
  Forall (fun c => len c = k) chunks ->
  nth_error chunks i = Some e ->
  field (k * Z.of_nat i) k (concat chunks ++ rest) = e.
Proof.
  induction chunks as [|c chunks IH]; intros i e rest Hall Hi.
  - destruct i; discriminate.
  - inversion Hall as [|? ? Hc Hall']; subst.
    cbn [concat]. rewrite <- app_assoc.
    destruct i as [|j]; cbn [nth_error] in Hi.
    + injection Hi as ->. rewrite Z.mul_0_r. apply field_prefix.
    + replace (len c * Z.of_nat (S j)) with (len c + len c * Z.of_nat j) by lia.
      rewrite field_app_skip by (pose proof (len_nonneg c); lia).
      now apply IH.
Qed.

Lemma nth_error_firstn_split {A} (l : list A) i x :
  nth_error l i = Some x -> l = firstn i l ++ x :: skipn (S i) l.
Proof.
  revert i. induction l as [|y l IH]; intros [|i] H; try discriminate.
  - injection H as ->. reflexivity.
  - cbn [firstn skipn app]. f_equal. now apply IH.
Qed.

Lemma pack_manifest_entry_ok path_bytes comp orig e :
  length path_bytes = 128%nat ->
  pack_manifest_entry path_bytes comp orig = Ok e ->
  len e = manifest_entry_size /\
  entry_path e = path_bytes /\
  entry_compressed_size e = comp /\
  entry_original_size e = orig /\
  0 <= orig < 2 ^ 32.
Proof.
  intros Hp. unfold pack_manifest_entry.
  intros H. apply bind_result_ok in H. destruct H as (c & Hc & H).
  apply bind_result_ok in H. destruct H as (o & Ho & H).
  injection H as <-.
  apply pack_I_ok in Hc. destruct Hc as (Lc & Vc & Rc).
  apply pack_I_ok in Ho. destruct Ho as (Lo & Vo & Ro).
  rewrite pack_s_exact by assumption.
  assert (Hlp : len path_bytes = 128) by (unfold len; lia).
  assert (Hlc : len c = 4) by (unfold len; lia).
  assert (Hlo : len o = 4) by (unfold len; lia).
  repeat split; try lia.
  - rewrite !len_app. unfold manifest_entry_size. lia.
  - unfold entry_path. rewrite <- Hlp. apply field_prefix.
  - unfold entry_compressed_size, u32_at.
    rewrite (field_inside path_bytes c o) by lia. exact Vc.
  - unfold entry_original_size, u32_at.
    rewrite app_assoc, <- (app_nil_r o).
    rewrite (field_inside (path_bytes ++ c) o []) by (rewrite ?len_app; lia).
    exact Vo.
Qed.

Lemma pack_arch_entry_ok name_bytes offset count e :
  length name_bytes = 16%nat ->
  pack_arch_entry name_bytes offset count = Ok e ->
  len e = arch_entry_size /\
  entry_name e = name_bytes /\
  entry_offset e = offset /\
  entry_file_count e = count /\
  0 <= offset < 2 ^ 32.
Proof.
  intros Hp. unfold pack_arch_entry.
  intros H. apply bind_result_ok in H. destruct H as (o & Ho & H).
  apply bind_result_ok in H. destruct H as (c & Hc & H).
  injection H as <-.
  apply pack_I_ok in Hc. destruct Hc as (Lc & Vc & Rc).
  apply pack_I_ok in Ho. destruct Ho as (Lo & Vo & Ro).
  rewrite pack_s_exact by assumption.
  assert (Hlp : len name_bytes = 16) by (unfold len; lia).
  assert (Hlc : len c = 4) by (unfold len; lia).
  assert (Hlo : len o = 4) by (unfold len; lia).
  repeat split; try lia.
  - rewrite !len_app. unfold arch_entry_size. lia.
  - unfold entry_name. rewrite <- Hlp. apply field_prefix.
  - unfold entry_offset, u32_at.
    rewrite (field_inside name_bytes o c) by lia. exact Vo.
  - unfold entry_file_count, u32_at.
    rewrite app_assoc, <- (app_nil_r c).
    rewrite (field_inside (name_bytes ++ o) c []) by (rewrite ?len_app; lia).
    exact Vc.
Qed.

Section WithZlib.
Variable zlib_compress : bytes -> Z -> bytes.

Lemma manifest_entry_of_ok (f : str * bytes) e :
  manifest_entry_of zlib_compress f = Ok e ->
  len e = manifest_entry_size /\
  path_field (fst f) = Ok (entry_path e) /\
  entry_compressed_size e = comp_size zlib_compress f /\
  entry_original_size e = len (snd f).
Proof.
  unfold manifest_entry_of. intros H.
  apply bind_result_ok in H. destruct H as (pf & Hpf & H).
  destruct (path_field_ok _ _ Hpf) as (enc & _ & _ & Hlen).
  apply pack_manifest_entry_ok in H; [ | exact Hlen ].
  destruct H as (H1 & H2 & H3 & H4 & _).
  rewrite H2. auto.
Qed.

(** One turn of the loop of [pack_arch]. *)
Lemma pack_file_ok manifest data (f : str * bytes) t manifest' data' :
  pack_file zlib_compress (manifest, data) f = (t, Ok (manifest', data')) ->
  exists e,
    manifest_entry_of zlib_compress f = Ok e /\
    manifest' = manifest ++ e /\
    data' = data ++ stored zlib_compress f.
Proof.
  destruct f as [rel_path file_data].
  unfold pack_file, manifest_entry_of, stored, comp_size. cbn [fst snd].
  destruct (compress_file zlib_compress file_data) as [compressed csize].
  cbn [fst snd]. intros H.
  apply bind_ok in H. destruct H as (t1 & pf & t2 & Hpf & H & _).
  apply lift_ok in Hpf. destruct Hpf as [_ Hpf].
  apply bind_ok in H. destruct H as (t3 & e & t4 & He & H & _).
  apply lift_ok in He. destruct He as [_ He].
  apply bind_ok in H. destruct H as (t5 & [] & t6 & _ & H & _).
  injection H as _ <- <-.
  exists e. rewrite Hpf. cbn [bind_result]. auto.
Qed.

(** The whole loop: one entry and one run of stored bytes per file, in
    the order of the files. *)
Lemma pack_files_ok (files : list (str * bytes)) :
  forall manifest data t manifest' data',
  for_each files (pack_file zlib_compress) (manifest, data)
    = (t, Ok (manifest', data')) ->
  exists entries,
    Forall2 (fun f e => manifest_entry_of zlib_compress f = Ok e) files entries /\
    manifest' = manifest ++ concat entries /\
    data' = data ++ concat (map (stored zlib_compress) files).
Proof.
  induction files as [|f files IH]; intros manifest data t manifest' data' H.
  - cbn in H. injection H as _ <- <-.
    exists []. cbn. rewrite !app_nil_r. auto.
  - apply for_each_cons_ok in H.
    destruct H as (t1 & [m1 d1] & t2 & Hf & Hrest & _).
    apply pack_file_ok in Hf. destruct Hf as (e & He & -> & ->).
    apply IH in Hrest. destruct Hrest as (entries & Hall & -> & ->).
    exists (e :: entries). cbn [concat map]. rewrite <- !app_assoc. auto.
Qed.

(** The loop goes through when every entry can be written. *)
Lemma pack_files_total (files : list (str * bytes)) :
  Forall (fun f => exists e, manifest_entry_of zlib_compress f = Ok e) files ->
  forall acc, exists t acc',
    for_each files (pack_file zlib_compress) acc = (t, Ok acc').
Proof.
  induction 1 as [|f files [e He] _ IH]; intros [manifest data].
  - exists [], (manifest, data). reflexivity.
  - cbn [for_each].
    assert (Hf : exists t1,
      pack_file zlib_compress (manifest, data) f
      = (t1, Ok (manifest ++ e, data ++ stored zlib_compress f))).
    { destruct f as [rel_path file_data].
      revert He. unfold pack_file, manifest_entry_of, stored, comp_size.
      cbn [fst snd].
      destruct (compress_file zlib_compress file_data) as [compressed csize].
      cbn [fst snd]. intros He.
      destruct (path_field rel_path) as [pf|]; [ | discriminate ].
      cbn [bind_result] in He. unfold lift. cbn [bind]. rewrite He.
      cbn. eauto. }
    destruct Hf as [t1 Hf].
    destruct (IH (manifest ++ e, data ++ stored zlib_compress f)) as (t2 & acc' & H2).
    exists (t1 ++ t2), acc'. eapply bind_eq; eassumption.
Qed.

Lemma pack_arch_ok fs name esp_dir t manifest data count :
  pack_arch zlib_compress fs name esp_dir = (t, Ok (manifest, data, count)) ->
  exists entries,
    Forall2 (fun f e => manifest_entry_of zlib_compress f = Ok e)
      (collect_files fs esp_dir) entries /\
    manifest = concat entries /\
    data = concat (map (stored zlib_compress) (collect_files fs esp_dir)) /\
    count = len (collect_files fs esp_dir).
Proof.
  unfold pack_arch.
  destruct (collect_files fs esp_dir) as [|f files] eqn:Efiles.
  - cbn. intros [= _ <- <- <-]. exists []. repeat split. constructor.
  - intros H. apply bind_ok in H.
    destruct H as (t1 & [m d] & t2 & Hloop & Hret & _).
    injection Hret as _ <- <- <-.
    apply pack_files_ok in Hloop. cbn [app] in Hloop.
    destruct Hloop as (entries & Hall & -> & ->).
    exists entries. auto.
Qed.

Lemma entries_sized files entries :
  Forall2 (fun f e => manifest_entry_of zlib_compress f = Ok e) files entries ->
  Forall (fun e => len e = manifest_entry_size) entries.
Proof.
  induction 1 as [|f e files entries He _ IH]; constructor; [ | exact IH ].
  now apply manifest_entry_of_ok in He.
Qed.

Lemma entries_nth files entries :
  Forall2 (fun f e => manifest_entry_of zlib_compress f = Ok e) files entries ->
  forall i f, nth_error files i = Some f ->
  manifest_entry_of zlib_compress f
    = Ok (manifest_entry (Z.of_nat i) (concat entries)).
Proof.
  intros Hall i f Hi.
  assert (exists e, nth_error entries i = Some e /\
                    manifest_entry_of zlib_compress f = Ok e) as (e & Hie & He).
  { clear -Hall Hi. revert i Hi.
    induction Hall as [|f0 e0 files entries H0 _ IH]; intros [|i] Hi;
      try discriminate; cbn [nth_error] in *.
    - injection Hi as ->. eauto.
    - now apply IH. }
  unfold manifest_entry. rewrite <- (app_nil_r (concat entries)).
  rewrite (field_chunk _ entries i e []); [ exact He | | exact Hie ].
  eapply entries_sized; eassumption.
Qed.

Lemma firstn_succ {A} (l : list A) i x :
  nth_error l i = Some x -> firstn (S i) l = firstn i l ++ [x].
Proof.
  revert i. induction l as [|y l IH]; intros [|i] H; try discriminate.
  - injection H as ->. reflexivity.
  - cbn [firstn app]. f_equal. now apply IH.
Qed.

(** The running offset a reader computes from the manifest is where the
    script put the file. *)
Lemma data_start_stored files entries :
  Forall2 (fun f e => manifest_entry_of zlib_compress f = Ok e) files entries ->
  (forall f, In f files ->
     COMPRESS_THRESHOLD <= len (snd f) -> zlib_nonempty zlib_compress (snd f)) ->
  forall i, (i <= length files)%nat ->
  data_start i (concat entries)
    = len (concat (map (stored zlib_compress) (firstn i files))).
Proof.
  intros Hall Hz. induction i as [|j IH]; intros Hi; [ reflexivity | ].
  cbn [data_start]. rewrite IH by lia.
  destruct (nth_error files j) as [f|] eqn:Hj;
    [ | apply nth_error_None in Hj; lia ].
  pose proof (entries_nth _ _ Hall j f Hj) as He.
  rewrite (firstn_succ _ _ _ Hj), map_app. cbn [map].
  rewrite len_concat_app. f_equal.
  unfold stored_size.
  apply manifest_entry_of_ok in He. destruct He as (_ & _ & -> & ->).
  symmetry. apply stored_len. apply Hz. eapply nth_error_In; eassumption.
Qed.

End WithZlib.

End PackArchFacts.

(** ** The assembler: header, architecture table and blobs *)

Module AssembleFacts.
Import Py Fs Io Pack Reader Layout PyFacts FieldFacts IoFacts PackArchFacts.

Lemma pack_header_ok n header :
  pack_header n = Ok header ->
  len header = header_size /\ header_arch_count header = n /\ 0 <= n < 256.
Proof.
  unfold pack_header. intros H.
  apply bind_result_ok in H. destruct H as (v & Hv & H).
  apply bind_result_ok in H. destruct H as (c & Hc & H).
  apply bind_result_ok in H. destruct H as (r & Hr & H).
  injection H as <-.
  apply pack_uint_ok in Hv, Hc, Hr.
  destruct Hv as [-> _], Hc as [-> Hn], Hr as [-> _].
  change (2 ^ (8 * Z.of_nat 1)) with 256 in Hn.
  split; [ reflexivity | split; [ | exact Hn ] ].
  unfold header_arch_count, u8_at, field.
  change (Z.to_nat 5) with 5%nat. change (Z.to_nat 1) with 1%nat.
  cbn [le_bytes pack_s bytes_of_string str_of_string map firstn skipn
       app length Nat.sub repeat le_value fold_right].
  rewrite Z_of_byte_of_Z_small by lia. lia.
Qed.

Lemma blobs_before_succ zc fs arches i a :
  nth_error arches i = Some a ->
  blobs_before zc fs arches (S i)
    = blobs_before zc fs arches i ++ arch_blob zc fs a.
Proof.
  intros H. unfold blobs_before.
  rewrite (firstn_succ _ _ _ H), map_app, concat_app.
  cbn [map concat]. now rewrite app_nil_r.
Qed.


Section WithZlib.
Variable zlib_compress : bytes -> Z -> bytes.
Variable fs : node.

Lemma entry_written_ok offset a e :
  entry_written zlib_compress fs offset a e ->
  len e = arch_entry_size /\
  name_field (fst a) = Ok (entry_name e) /\
  entry_offset e = offset /\
  entry_file_count e = arch_file_count zlib_compress fs a /\
  0 <= offset < 2 ^ 32.
Proof.
  intros (nb & Hnb & He).
  destruct (name_field_ok _ _ Hnb) as (enc & _ & _ & Hlen).
  apply pack_arch_entry_ok in He; [ | exact Hlen ].
  destruct He as (H1 & H2 & H3 & H4 & H5). rewrite H2. auto.
Qed.

(** One turn of the second loop of [main]. *)
Lemma pack_entry_ok st a t st' :
  pack_entry zlib_compress fs st a = (t, Ok st') ->
  exists e,
    entry_written zlib_compress fs (data_offset st) a e /\
    arch_table st' = arch_table st ++ e /\
    arch_blobs st' = arch_blobs st ++ [arch_blob zlib_compress fs a] /\
    data_offset st' = data_offset st + len (arch_blob zlib_compress fs a).
Proof.
  destruct a as [arch_name esp_dir]. unfold pack_entry. intros H.
  apply bind_ok in H. destruct H as (t0 & [] & t1 & _ & H & _).
  apply bind_ok in H. destruct H as (t2 & [[m d] c] & t3 & Hp & H & _).
  apply bind_ok in H. destruct H as (t4 & nb & t5 & Hnb & H & _).
  apply lift_ok in Hnb. destruct Hnb as [_ Hnb].
  apply bind_ok in H. destruct H as (t6 & e & t7 & He & H & _).
  apply lift_ok in He. destruct He as [_ He].
  injection H as _ <-. cbn [arch_table arch_blobs data_offset].
  unfold entry_written, arch_blob, arch_file_count, outcome. cbn [fst snd].
  rewrite Hp. cbn [snd]. exists e. split; [ exists nb; auto | auto ].
Qed.

(** The whole loop: the table gains one entry per architecture, written
    with the offset reached so far; the offset advances by each blob. *)
Lemma table_loop_ok (arches : list (str * path)) :
  forall st t st',
  for_each arches (pack_entry zlib_compress fs) st = (t, Ok st') ->
  exists entries,
    length entries = length arches /\
    arch_table st' = arch_table st ++ concat entries /\
    arch_blobs st' = arch_blobs st ++ map (arch_blob zlib_compress fs) arches /\
    Forall (fun e => len e = arch_entry_size) entries /\
    forall i a, nth_error arches i = Some a ->
      exists e,
        nth_error entries i = Some e /\
        entry_written zlib_compress fs
          (data_offset st + len (blobs_before zlib_compress fs arches i)) a e.
Proof.
  induction arches as [|a0 arches IH]; intros st t st' H.
  - cbn in H. injection H as _ <-. exists []. cbn. rewrite !app_nil_r.
    repeat split; [ constructor | intros [|i] a Hi; discriminate ].
  - apply for_each_cons_ok in H.
    destruct H as (t1 & st1 & t2 & Hstep & Hrest & _).
    apply pack_entry_ok in Hstep.
    destruct Hstep as (e0 & Hw & Htab & Hblobs & Hoff).
    apply IH in Hrest.
    destruct Hrest as (entries & Hn & Htab' & Hblobs' & Hsz & Hnth).
    exists (e0 :: entries). cbn [concat map].
    rewrite Htab', Htab, Hblobs', Hblobs, <- !app_assoc.
    repeat split.
    + cbn [length]. now rewrite Hn.
    + constructor; [ | exact Hsz ]. now apply entry_written_ok in Hw.
    + intros [|i] a Hi; cbn [nth_error] in *.
      * injection Hi as <-. exists e0. split; [ reflexivity | ].
        unfold blobs_before. cbn [firstn map concat].
        now rewrite len_nil, Z.add_0_r.
      * destruct (Hnth i a Hi) as (e & Hie & He).
        exists e. split; [ exact Hie | ].
        unfold blobs_before in *. cbn [firstn map concat].
        rewrite len_app, Z.add_assoc, <- Hoff. exact He.
Qed.

(** The shape of an assembled payload. *)
Lemma assemble_ok arches t payload :
  assemble zlib_compress fs arches = (t, Ok payload) ->
  exists header entries,
    pack_header (len arches) = Ok header /\
    Forall (fun e => len e = arch_entry_size) entries /\
    length entries = length arches /\
    payload = header ++ concat entries
                ++ concat (map (arch_blob zlib_compress fs) arches) /\
    forall i a, nth_error arches i = Some a ->
      exists e,
        nth_error entries i = Some e /\
        entry_written zlib_compress fs
          (header_size + arch_entry_size * len arches
             + len (blobs_before zlib_compress fs arches i)) a e.
Proof.
  unfold assemble. intros H.
  apply bind_ok in H. destruct H as (t0 & header & t1 & Hh & H & _).
  apply lift_ok in Hh. destruct Hh as [_ Hh].
  apply bind_ok in H. destruct H as (t2 & st & t3 & Hloop & H & _).
  injection H as _ <-.
  apply table_loop_ok in Hloop.
  destruct Hloop as (entries & Hn & Htab & Hblobs & Hsz & Hnth).
  cbn [arch_table arch_blobs data_offset app] in *.
  destruct (pack_header_ok _ _ Hh) as (Hlen & _).
  exists header, entries. rewrite Htab, Hblobs.
  repeat split; try assumption.
  intros i a Hi. destruct (Hnth i a Hi) as (e & Hie & He).
  exists e. split; [ exact Hie | ]. now rewrite <- Hlen.
Qed.

(** The [i]-th entry read from the payload is the one written for the
    [i]-th architecture. *)
Lemma assemble_entry_written arches t payload i a :
  assemble zlib_compress fs arches = (t, Ok payload) ->
  nth_error arches i = Some a ->
  entry_written zlib_compress fs
    (header_size + arch_entry_size * len arches
       + len (blobs_before zlib_compress fs arches i))
    a (arch_entry (Z.of_nat i) payload).
Proof.
  intros Hasm Hi. apply assemble_ok in Hasm.
  destruct Hasm as (header & entries & Hh & Hsz & Hn & -> & Hnth).
  destruct (pack_header_ok _ _ Hh) as (Hlen & _).
  destruct (Hnth i a Hi) as (e & Hie & He).
  unfold arch_entry. rewrite <- Hlen at 2.
  rewrite field_app_skip by (unfold arch_entry_size; lia).
  rewrite (field_chunk arch_entry_size entries i e _ Hsz Hie).
  exact He.
Qed.

End WithZlib.

End AssembleFacts.

(** ** [main]: exit status and effects *)

Module MainFacts.
Import Py Fs Io Pack Reader Layout PyFacts IoFacts.

Lemma io_eta {A} (c : io A) : c = (trace c, outcome c).
Proof. now destruct c. Qed.

Lemma find_arches_total fs build_dir names :
  exists arches, outcome (find_arches fs build_dir names) = Ok arches.
Proof.
  induction names as [|n names [arches IH]]; cbn [find_arches].
  - exists []. reflexivity.
  - destruct (exists_ fs (build_dir ++ [n; str_of_string "esp"])).
    + rewrite (io_eta (find_arches fs build_dir names)), IH. cbn. eauto.
    + eauto.
Qed.

(** When nothing is found nothing has been printed either. *)
Lemma find_arches_none fs build_dir names :
  outcome (find_arches fs build_dir names) = Ok [] ->
  find_arches fs build_dir names = ([], Ok []).
Proof.
  induction names as [|n names IH]; cbn [find_arches]; [ reflexivity | ].
  destruct (exists_ fs (build_dir ++ [n; str_of_string "esp"])); [ | exact IH ].
  destruct (find_arches_total fs build_dir names) as [arches Ha].
  rewrite (io_eta (find_arches fs build_dir names)), Ha. cbn. discriminate.
Qed.

Section WithZlib.
Variable zlib_compress : bytes -> Z -> bytes.

Lemma main_with_none names fs build_dir output :
  no_architectures_found names fs build_dir ->
  main_with zlib_compress names fs build_dir output
    = ([Print MsgNoEspDirectories], Ok 1).
Proof.
  intros H. apply find_arches_none in H.
  unfold main_with. rewrite H. reflexivity.
Qed.

(** The end of [main] once a payload is assembled. *)
Lemma main_with_assembled names fs build_dir output arches payload :
  outcome (find_arches fs build_dir names) = Ok arches ->
  arches <> [] ->
  outcome (assemble zlib_compress fs arches) = Ok payload ->
  main_with zlib_compress names fs build_dir output
    = (trace (find_arches fs build_dir names)
         ++ trace (assemble zlib_compress fs arches)
         ++ [WriteBytes output payload;
             Print (MsgPayloadWritten output (len payload));
             Print (if len payload >? max_size
                    then MsgExceedsPartition (len payload) max_size
                    else MsgPartitionUsage (len payload) max_size)],
       Ok (if len payload >? max_size then 1 else 0)).
Proof.
  intros Hf Hne Ha. unfold main_with.
  destruct (find_arches fs build_dir names) as [t1 r1].
  destruct arches as [|a arches]; [ congruence | ].
  cbn [trace outcome fst snd] in *. subst r1. cbn [bind].
  destruct (assemble zlib_compress fs (a :: arches)) as [t2 r2].
  cbn [trace outcome fst snd] in *. subst r2.
  cbn [bind write_bytes print ret app].
  destruct (len payload >? max_size); cbn [bind print ret app];
    rewrite ?app_nil_r; reflexivity.
Qed.

End WithZlib.

End MainFacts.

(** ** When the script produces a payload *)

Module TotalFacts.
Import Py Fs Io Pack Reader Layout PyFacts FieldFacts IoFacts CompressFacts
  PackArchFacts AssembleFacts.

Lemma pack_I_in_range x : 0 <= x < 2 ^ 32 -> pack_I x = Ok (le_bytes 4 x).
Proof. intros H. apply (pack_uint_in_range 4). exact H. Qed.

Section WithZlib.
Variable zlib_compress : bytes -> Z -> bytes.
Variable fs : node.

Lemma manifest_entry_of_total (f : str * bytes) :
  packable_file f -> exists e, manifest_entry_of zlib_compress f = Ok e.
Proof.
  intros [[enc Henc] Hlen]. unfold manifest_entry_of.
  rewrite path_field_eq, Henc. cbn [bind_result].
  unfold pack_manifest_entry.
  pose proof (comp_size_range zlib_compress f) as Hc.
  pose proof (len_nonneg (snd f)) as Hn.
  rewrite (pack_I_in_range (comp_size zlib_compress f)) by lia.
  rewrite (pack_I_in_range (len (snd f))) by lia.
  cbn [bind_result]. eauto.
Qed.

Lemma pack_arch_total name esp_dir :
  Forall packable_file (collect_files fs esp_dir) ->
  exists t manifest data,
    pack_arch zlib_compress fs name esp_dir
      = (t, Ok (manifest, data, len (collect_files fs esp_dir))).
Proof.
  intros Hall. unfold pack_arch.
  destruct (collect_files fs esp_dir) as [|f files] eqn:E.
  - cbn. eauto.
  - assert (Hent : Forall (fun f => exists e, manifest_entry_of zlib_compress f = Ok e)
                     (f :: files)).
    { eapply Forall_impl; [ | exact Hall ]. apply manifest_entry_of_total. }
    destruct (pack_files_total zlib_compress _ Hent ([], [])) as (t & [m d] & H).
    rewrite H. cbn [bind ret fst snd]. eauto.
Qed.

Lemma blob_size_entries files : forall entries,
  Forall2 (fun f e => manifest_entry_of zlib_compress f = Ok e) files entries ->
  len (concat entries) + len (concat (map (stored zlib_compress) files))
    = blob_size zlib_compress files.
Proof.
  induction files as [|f files IH]; intros entries Hall;
    inversion Hall as [|? e ? entries' He Hall']; subst.
  - reflexivity.
  - cbn [concat map blob_size fold_right]. rewrite !len_app.
    specialize (IH _ Hall'). unfold blob_size in IH.
    apply manifest_entry_of_ok in He. destruct He as [He _].
    unfold manifest_entry_size in He. lia.
Qed.

Lemma blob_size_bound files : 136 * len files <= blob_size zlib_compress files.
Proof.
  induction files as [|f files IH]; [ cbn; lia | ].
  cbn [blob_size fold_right]. rewrite len_cons. unfold blob_size in IH.
  pose proof (len_nonneg (stored zlib_compress f)). lia.
Qed.

(** The blob and the file count of a packable architecture. *)
Lemma arch_blob_packable (a : str * path) :
  Forall packable_file (collect_files fs (snd a)) ->
  len (arch_blob zlib_compress fs a)
    = blob_size zlib_compress (collect_files fs (snd a)) /\
  arch_file_count zlib_compress fs a = len (collect_files fs (snd a)).
Proof.
  intros Hall.
  destruct (pack_arch_total (fst a) (snd a) Hall) as (t & m & d & H).
  unfold arch_blob, arch_file_count, outcome. rewrite H. cbn [snd].
  split; [ | reflexivity ].
  apply pack_arch_ok in H. destruct H as (entries & Hent & -> & -> & _).
  rewrite len_app. now apply blob_size_entries.
Qed.

Lemma blob_size_small (files : list (str * bytes)) :
  Forall (fun f => len (snd f) < COMPRESS_THRESHOLD) files ->
  blob_size zlib_compress files = raw_size files.
Proof.
  induction 1 as [|[p d] files Hf _ IH]; [ reflexivity | ].
  cbn [blob_size raw_size fold_right]. unfold blob_size, raw_size in IH.
  rewrite IH. unfold stored. cbn [snd] in *.
  now rewrite (compress_file_small zlib_compress d Hf).
Qed.

Lemma pack_entry_total st (a : str * path) :
  packable_arch fs a ->
  0 <= data_offset st ->
  data_offset st + len (arch_blob zlib_compress fs a) < 2 ^ 32 ->
  exists t st', pack_entry zlib_compress fs st a = (t, Ok st').
Proof.
  intros [[enc Henc] Hfiles] H0 Hlt.
  destruct (arch_blob_packable a Hfiles) as [Hblob Hcount].
  pose proof (blob_size_bound (collect_files fs (snd a))) as Hb.
  pose proof (len_nonneg (collect_files fs (snd a))) as Hn.
  destruct (pack_arch_total (fst a) (snd a) Hfiles) as (t & m & d & H).
  destruct a as [arch_name esp_dir]. cbn [fst snd] in *.
  unfold pack_entry. rewrite H. cbn [print bind].
  rewrite name_field_eq, Henc. cbn [bind_result lift bind].
  unfold pack_arch_entry.
  rewrite (pack_I_in_range (data_offset st)) by lia.
  rewrite (pack_I_in_range (len (collect_files fs esp_dir))) by lia.
  cbn [bind_result bind ret]. eauto.
Qed.

Lemma table_loop_total (arches : list (str * path)) :
  Forall (packable_arch fs) arches ->
  forall st,
  0 <= data_offset st ->
  data_offset st + len (concat (map (arch_blob zlib_compress fs) arches)) < 2 ^ 32 ->
  exists t st', for_each arches (pack_entry zlib_compress fs) st = (t, Ok st').
Proof.
  induction 1 as [|a arches Ha _ IH]; intros st H0 Hlt.
  - exists [], st. reflexivity.
  - cbn [map concat] in Hlt. rewrite len_app in Hlt.
    pose proof (len_nonneg (arch_blob zlib_compress fs a)) as Hb.
    pose proof (len_nonneg (concat (map (arch_blob zlib_compress fs) arches))) as Hc.
    destruct (pack_entry_total st a Ha H0) as (t1 & st1 & H1); [ lia | ].
    destruct (pack_entry_ok _ _ _ _ _ _ H1) as (e & _ & _ & _ & Hoff).
    destruct (IH st1) as (t2 & st' & H2); [ lia | lia | ].
    exists (t1 ++ t2), st'. cbn [for_each]. eapply bind_eq; eassumption.
Qed.

(** [main] assembles a payload when the architectures are packable, at
    most 255, and everything fits 32-bit offsets. *)
Lemma assemble_total (arches : list (str * path)) :
  len arches < 256 ->
  Forall (packable_arch fs) arches ->
  8 + 24 * len arches + len (concat (map (arch_blob zlib_compress fs) arches))
    < 2 ^ 32 ->
  exists t payload, assemble zlib_compress fs arches = (t, Ok payload).
Proof.
  intros Hn Hall Hlt. unfold assemble.
  pose proof (len_nonneg arches) as H0.
  assert (Hh : exists header, pack_header (len arches) = Ok header /\ len header = 8).
  { unfold pack_header, pack_B, pack_H.
    rewrite (pack_uint_in_range 1 1) by (cbn; lia).
    rewrite (pack_uint_in_range 1 (len arches)) by (cbn; lia).
    rewrite (pack_uint_in_range 2 0) by (cbn; lia).
    cbn [bind_result]. eexists. split; reflexivity. }
  destruct Hh as (header & Hh & Hlen). rewrite Hh. cbn [lift bind].
  rewrite Hlen.
  destruct (table_loop_total arches Hall
              {| arch_table := []; arch_blobs := [];
                 data_offset := 8 + 24 * len arches |}) as (t & st & H).
  - cbn [data_offset]. lia.
  - cbn [data_offset]. lia.
  - rewrite H. cbn [bind ret]. eauto.
Qed.

Lemma assemble_len arches t payload :
  assemble zlib_compress fs arches = (t, Ok payload) ->
  len payload
    = 8 + 24 * len arches
        + len (concat (map (arch_blob zlib_compress fs) arches)).
Proof.
  intros H. apply assemble_ok in H.
  destruct H as (header & entries & Hh & Hsz & Hn & -> & _).
  destruct (pack_header_ok _ _ Hh) as (Hlen & _).
  assert (Hn' : @len bytes entries = len arches) by exact (f_equal Z.of_nat Hn).
  rewrite !len_app, Hlen.
  rewrite (len_concat_sized _ _ Hsz), Hn'.
  unfold header_size, arch_entry_size. lia.
Qed.

End WithZlib.

End TotalFacts.

(** ** What is written before the end of [main] *)

Module TraceFacts.
Import Py Fs Io Pack Layout IoFacts.

Lemma writes_app t t' : writes (t ++ t') = writes t ++ writes t'.
Proof. apply filter_app. Qed.

Lemma quiet_ret {A} (a : A) : quiet (ret a).
Proof. reflexivity. Qed.

Lemma quiet_print m : quiet (print m).
Proof. reflexivity. Qed.

Lemma quiet_lift {A} (r : result A) : quiet (lift r).
Proof. reflexivity. Qed.

Lemma quiet_bind {A B} (c : io A) (k : A -> io B) :
  quiet c -> (forall a, quiet (k a)) -> quiet (bind c k).
Proof.
  unfold quiet. destruct c as [t [a|e]]; cbn [bind trace fst]; intros Hc Hk.
  - specialize (Hk a). destruct (k a) as [t' r]. cbn [trace fst] in *.
    now rewrite writes_app, Hc, Hk.
  - exact Hc.
Qed.

Lemma quiet_for_each {A S} (l : list A) (body : S -> A -> io S) :
  (forall s x, quiet (body s x)) -> forall s, quiet (for_each l body s).
Proof.
  intros Hb. induction l as [|x l IH]; intros s; cbn [for_each].
  - apply quiet_ret.
  - apply quiet_bind; [ apply Hb | exact IH ].
Qed.

Create HintDb quiet.
#[local] Hint Resolve quiet_ret quiet_print quiet_lift : quiet.

Lemma quiet_find_arches fs build_dir names :
  quiet (find_arches fs build_dir names).
Proof.
  induction names as [|n names IH]; cbn [find_arches]; [ apply quiet_ret | ].
  destruct (exists_ fs _); [ | exact IH ].
  apply quiet_bind; [ apply quiet_print | intros _ ].
  apply quiet_bind; [ exact IH | intros; apply quiet_ret ].
Qed.

Section WithZlib.
Variable zlib_compress : bytes -> Z -> bytes.

Lemma quiet_pack_file acc f : quiet (pack_file zlib_compress acc f).
Proof.
  destruct acc as [manifest data], f as [rel_path file_data].
  unfold pack_file. destruct (compress_file zlib_compress file_data).
  repeat (apply quiet_bind; [ auto with quiet | intros ? ]).
  apply quiet_ret.
Qed.

Lemma quiet_pack_arch fs name esp_dir :
  quiet (pack_arch zlib_compress fs name esp_dir).
Proof.
  unfold pack_arch. destruct (collect_files fs esp_dir).
  - apply quiet_bind; [ apply quiet_print | intros; apply quiet_ret ].
  - apply quiet_bind; [ | intros; apply quiet_ret ].
    apply quiet_for_each. apply quiet_pack_file.
Qed.

Lemma quiet_pack_entry fs st a : quiet (pack_entry zlib_compress fs st a).
Proof.
  destruct a as [arch_name esp_dir]. unfold pack_entry.
  apply quiet_bind; [ apply quiet_print | intros _ ].
  apply quiet_bind; [ apply quiet_pack_arch | intros [[m d] c] ].
  repeat (apply quiet_bind; [ auto with quiet | intros ? ]).
  apply quiet_ret.
Qed.

Lemma quiet_assemble fs arches : quiet (assemble zlib_compress fs arches).
Proof.
  unfold assemble.
  apply quiet_bind; [ apply quiet_lift | intros header ].
  apply quiet_bind; [ | intros; apply quiet_ret ].
  apply quiet_for_each. apply quiet_pack_entry.
Qed.

End WithZlib.

End TraceFacts.

(** ** The reference codec *)

Module RefZlibFacts.
Import Py Pack Layout Examples RefZlib PyFacts CompressFacts.

Lemma raw_deflate_rle data : raw_deflate compress data = rle data.
Proof.
  unfold raw_deflate, compress.
  apply (slice_frame [x78; xda]); [ reflexivity | ].
  unfold len. now rewrite length_rev, length_le_bytes.
Qed.

(** The code of a text is a terminator, or starts with a count that is
    not zero. *)
Lemma rle_shape data :
  (data = [] /\ rle data = [x00]) \/
  (exists c b rest, rle data = c :: b :: rest /\ 1 <= Z_of_byte c <= 255).
Proof.
  induction data as [|b data IH]; [ left; auto | right ].
  cbn [rle].
  destruct IH as [[-> ->]|(c & b' & rest & -> & Hc)].
  - exists x01, b, [x00]. split; [ reflexivity | ]. cbn. lia.
  - destruct (Byte.eqb b b' && (Z_of_byte c <? 255)) eqn:E.
    + apply andb_true_iff in E. destruct E as [_ E]. apply Z.ltb_lt in E.
      exists (byte_of_Z (Z_of_byte c + 1)), b', rest.
      split; [ reflexivity | ]. rewrite Z_of_byte_of_Z_small; lia.
    + exists x01, b, (c :: b' :: rest). split; [ reflexivity | ]. cbn. lia.
Qed.

(** The decoder inverts the coder. *)
Lemma unrle_rle data : unrle (rle data) = Some data.
Proof.
  induction data as [|b data IH]; [ reflexivity | ].
  cbn [rle].
  destruct (rle_shape data) as [[-> _]|(c & b' & rest & E & Hc)];
    [ reflexivity | ].
  rewrite E in IH |- *.
  cbn [unrle] in IH.
  destruct (Z.eqb_spec (Z_of_byte c) 0) as [H0|_]; [ lia | ].
  destruct (unrle rest) as [tail|] eqn:Et; [ | discriminate ].
  cbn [option_map] in IH. injection IH as <-.
  destruct (Byte.eqb b b' && (Z_of_byte c <? 255)) eqn:Eb.
  - apply andb_true_iff in Eb. destruct Eb as [Eq Elt].
    apply Byte.byte_dec_bl in Eq. subst b'. apply Z.ltb_lt in Elt.
    cbn [unrle]. rewrite Z_of_byte_of_Z_small by lia.
    destruct (Z.eqb_spec (Z_of_byte c + 1) 0) as [H0|_]; [ lia | ].
    rewrite Et. cbn [option_map].
    replace (Z.to_nat (Z_of_byte c + 1)) with (S (Z.to_nat (Z_of_byte c))) by lia.
    reflexivity.
  - cbn [unrle]. change (Z_of_byte x01 =? 0) with false. cbv iota.
    destruct (Z.eqb_spec (Z_of_byte c) 0) as [H0|_]; [ lia | ].
    rewrite Et. reflexivity.
Qed.

(** The codec satisfies, for every input, what is asked of zlib. *)
Lemma compress_is_zlib_stream data : zlib_stream compress inflate data.
Proof.
  exists [x78; xda], (rle data), (rev (le_bytes 4 (adler32 1 0 data))).
  split; [ reflexivity | ]. split; [ reflexivity | ].
  split; [ unfold len; now rewrite length_rev, length_le_bytes | ].
  split; [ | apply unrle_rle ].
  destruct (rle_shape data) as [[_ ->]|(c & b & rest & -> & _)]; discriminate.
Qed.

End RefZlibFacts.

(** * The claims *)

Import Py Utf8 Fs Io Pack Reader Layout Examples.
Import PyFacts Utf8Facts FieldFacts IoFacts CompressFacts PackArchFacts
  AssembleFacts MainFacts TotalFacts TraceFacts RefZlibFacts.

Ltac by_compute :=
  first [ apply Z.leb_le | apply Z.ltb_lt | idtac ]; vm_compute; reflexivity.

(** C1. Each architecture table entry holds, as its offset, the exact
    number of bytes before the blob of its architecture: the 8-byte
    header, the 24-byte entries of the table, and the blobs of the
    architectures before it, in input order.  The blob is found at that
    offset, the header counts the entries, and the first entry holds
    8 + 24 * arch_count. *)
Theorem arch_offsets_cumulative zlib_compress fs arches t payload i a :
  arches <> [] ->
  assemble zlib_compress fs arches = (t, Ok payload) ->
  nth_error arches i = Some a ->
  header_arch_count payload = len arches /\
  entry_offset (arch_entry (Z.of_nat i) payload)
    = 8 + 24 * len arches + len (blobs_before zlib_compress fs arches i) /\
  field (entry_offset (arch_entry (Z.of_nat i) payload))
        (len (arch_blob zlib_compress fs a)) payload
    = arch_blob zlib_compress fs a /\
  entry_offset (arch_entry 0 payload) = 8 + 24 * len arches.
Proof.
  intros Hne Hasm Hi.
  apply assemble_ok in Hasm.
  destruct Hasm as (header & entries & Hh & Hsz & Hn & -> & Hnth).
  destruct (pack_header_ok _ _ Hh) as (Hlen & Hcount & _).
  assert (Hentry : forall j b, nth_error arches j = Some b ->
            entry_offset (arch_entry (Z.of_nat j)
              (header ++ concat entries
                 ++ concat (map (arch_blob zlib_compress fs) arches)))
            = 8 + 24 * len arches + len (blobs_before zlib_compress fs arches j)).
  { intros j b Hj. destruct (Hnth j b Hj) as (e & Hje & He).
    unfold arch_entry. rewrite <- Hlen.
    rewrite field_app_skip by (unfold arch_entry_size; lia).
    rewrite (field_chunk arch_entry_size entries j e _ Hsz Hje).
    apply entry_written_ok in He. destruct He as (_ & _ & -> & _).
    reflexivity. }
  split; [ | split; [ | split ] ].
  - unfold header_arch_count, u8_at.
    rewrite field_within by (rewrite ?Hlen; unfold header_size; lia).
    exact Hcount.
  - eapply Hentry; eassumption.
  - rewrite (Hentry i a Hi).
    rewrite (nth_error_firstn_split arches i a Hi) at 3.
    rewrite map_app, concat_app. cbn [map concat].
    fold (blobs_before zlib_compress fs arches i).
    rewrite !app_assoc, <- (app_assoc _ (arch_blob zlib_compress fs a)).
    apply field_inside; [ | reflexivity ].
    assert (Hn' : @len bytes entries = len arches)
      by exact (f_equal Z.of_nat Hn).
    rewrite !len_app, (len_concat_sized _ _ Hsz), Hlen, Hn'.
    unfold header_size, arch_entry_size. lia.
  - destruct arches as [|a0 arches]; [ congruence | ].
    pose proof (Hentry 0%nat a0 eq_refl) as H0.
    change (Z.of_nat 0) with 0 in H0. rewrite H0.
    unfold blobs_before. cbn [firstn map concat]. rewrite len_nil. lia.
Qed.

(** The second of two architectures: its entry points past the header,
    the two entries and the blob of the first. *)
Lemma arch_offsets_cumulative_witness :
  let payload :=
    match outcome (assemble RefZlib.compress fs_two_arches
                     [(lit "aarch64", aarch64_esp); (lit "x86_64", x86_64_esp)])
    with Ok p => p | Raise _ => [] end in
  header_arch_count payload = 2 /\
  entry_offset (arch_entry 1 payload) = 8 + 24 * 2 + (136 + 10) /\
  entry_offset (arch_entry 0 payload) = 8 + 24 * 2.
Proof.
  pose proof (arch_offsets_cumulative RefZlib.compress fs_two_arches
    [(lit "aarch64", aarch64_esp); (lit "x86_64", x86_64_esp)]
    (trace (assemble RefZlib.compress fs_two_arches
              [(lit "aarch64", aarch64_esp); (lit "x86_64", x86_64_esp)]))
    (match outcome (assemble RefZlib.compress fs_two_arches
                     [(lit "aarch64", aarch64_esp); (lit "x86_64", x86_64_esp)])
     with Ok p => p | Raise _ => [] end)
    1%nat (lit "x86_64", x86_64_esp)) as H.
  destruct H as (H1 & H2 & _ & H4).
  - discriminate.
  - vm_compute. reflexivity.
  - reflexivity.
  - cbv zeta. rewrite H1. change (Z.of_nat 1) with 1 in H2. rewrite H2, H4.
    repeat split; vm_compute; reflexivity.
Defined.

(** C10. Whatever the length of the encoded text, the 128-byte path field
    and the 16-byte name field end with a null byte, so each holds a
    terminator; [struct.pack] stores them unchanged.  (A string the codec
    refuses yields no field: the run stops with the exception.) *)
Theorem text_fields_null_terminated (s : str) :
  match path_field s with
  | Ok f => len f = 128 /\ nth 127 f x01 = x00 /\ In x00 f /\ pack_s 128 f = f
  | Raise e => encode_utf8 s = Raise e
  end /\
  match name_field s with
  | Ok f => len f = 16 /\ nth 15 f x01 = x00 /\ In x00 f /\ pack_s 16 f = f
  | Raise e => encode_utf8 s = Raise e
  end.
Proof.
  rewrite path_field_eq, name_field_eq.
  destruct (encode_utf8 s) as [e|err]; cbn [bind_result]; [ | auto ].
  split.
  - pose proof (fixed_field_len 128 eq_refl e) as Hl.
    repeat split; [ exact Hl | | | ].
    + exact (fixed_field_last 128 eq_refl e).
    + apply fixed_field_has_null.
    + apply pack_s_exact. unfold len in Hl. lia.
  - pose proof (fixed_field_len 16 eq_refl e) as Hl.
    repeat split; [ exact Hl | | | ].
    + exact (fixed_field_last 16 eq_refl e).
    + apply fixed_field_has_null.
    + apply pack_s_exact. unfold len in Hl. lia.
Qed.

(** C3, as stated, fails: a file name whose encoding is 128 bytes long with
    a two-byte code point on bytes 126 and 127 is cut between these two
    bytes, and the path field of its manifest entry is not valid UTF-8; the
    same holds of a 16-byte architecture name. *)
Lemma truncation_splits_code_point :
  exists e f t manifest data e' f',
    encode_utf8 long_name = Ok e /\ len e = 128 /\
    path_field long_name = Ok f /\ valid_utf8 f = false /\
    pack_arch RefZlib.compress fs_long_name (lit "aarch64") aarch64_esp
      = (t, Ok (manifest, data, 1)) /\
    entry_path (manifest_entry 0 manifest) = f /\
    encode_utf8 long_arch_name = Ok e' /\ len e' = 16 /\
    name_field long_arch_name = Ok f' /\ valid_utf8 f' = false.
Proof.
  do 7 eexists.
  repeat match goal with |- _ /\ _ => split end; vm_compute; reflexivity.
Qed.

(** C3, amended.  A text longer than its budget is cut after exactly 127
    (15) bytes of its encoding and closed by one null byte.  When the cut
    falls between two code points (the text is [p ++ q] with [p] encoded
    on exactly 127 (15) bytes) the field is valid UTF-8 and reads back as
    [p] and the terminator. *)
Theorem truncation_is_bytewise (s : str) (e : bytes) :
  encode_utf8 s = Ok e ->
  (127 < len e ->
   path_field s = Ok (firstn 127 e ++ [x00]) /\
   forall p q ep, s = p ++ q -> encode_utf8 p = Ok ep -> len ep = 127 ->
     decode_utf8 (firstn 127 e ++ [x00]) = Some (p ++ [0])) /\
  (15 < len e ->
   name_field s = Ok (firstn 15 e ++ [x00]) /\
   forall p q ep, s = p ++ q -> encode_utf8 p = Ok ep -> len ep = 15 ->
     decode_utf8 (firstn 15 e ++ [x00]) = Some (p ++ [0])).
Proof.
  intros He.
  assert (Hcut : forall n p q ep, s = p ++ q -> encode_utf8 p = Ok ep ->
            length ep = n ->
            decode_utf8 (firstn n e ++ [x00]) = Some (p ++ [0])).
  { intros n p q ep -> Hp Hn.
    rewrite encode_utf8_app, Hp in He. cbn [bind_result] in He.
    destruct (encode_utf8 q) as [eq|]; [ | discriminate ].
    injection He as <-.
    rewrite firstn_app, <- Hn, firstn_all, Nat.sub_diag.
    cbn [firstn]. rewrite app_nil_r.
    rewrite (decode_encode p ep [x00] Hp). reflexivity. }
  split; intros Hlen.
  - split.
    + rewrite path_field_eq, He. cbn [bind_result].
      rewrite (fixed_field_cut 128) by lia. reflexivity.
    + intros p q ep Hs Hp Hn. apply (Hcut 127%nat p q ep Hs Hp).
      unfold len in Hn. lia.
  - split.
    + rewrite name_field_eq, He. cbn [bind_result].
      rewrite (fixed_field_cut 16) by lia. reflexivity.
    + intros p q ep Hs Hp Hn. apply (Hcut 15%nat p q ep Hs Hp).
      unfold len in Hn. lia.
Qed.

(** 127 letters and then U+00E9: the cut falls before the last code point,
    and the field reads back as the 127 letters. *)
Lemma truncation_is_bytewise_witness :
  path_field (repeat 97 127 ++ [233])
    = Ok (map byte_of_Z (repeat 97 127) ++ [x00]) /\
  decode_utf8 (map byte_of_Z (repeat 97 127) ++ [x00])
    = Some (repeat 97 127 ++ [0]).
Proof.
  destruct (truncation_is_bytewise (repeat 97 127 ++ [233])
              (map byte_of_Z (repeat 97 127) ++ [xc3; xa9])) as [H _].
  - vm_compute. reflexivity.
  - destruct H as [H1 H2].
    + by_compute.
    + split.
      * exact H1.
      * apply (H2 (repeat 97 127) [233] (map byte_of_Z (repeat 97 127)));
          [ reflexivity | vm_compute; reflexivity | vm_compute; reflexivity ].
Defined.

(** C4. For an input of 4096 bytes or more, a deflate stream that is not
    strictly smaller than the input is discarded and [(data, 0)] is
    returned; a stream that is kept saves at least one byte, and the size
    returned with it is its length, which is not zero.  (The zlib stream is
    taken to hold deflate data between its header and its trailer.) *)
Theorem compress_file_keeps_only_savings zlib_compress (data : bytes) :
  COMPRESS_THRESHOLD <= len data ->
  zlib_nonempty zlib_compress data ->
  let compressed := raw_deflate zlib_compress data in
  (len data <= len compressed -> compress_file zlib_compress data = (data, 0)) /\
  (len compressed < len data ->
   compress_file zlib_compress data = (compressed, len compressed) /\
   len compressed <> 0) /\
  (forall out size, compress_file zlib_compress data = (out, size) ->
     (size = 0 /\ out = data) \/
     (size <> 0 /\ out = compressed /\ size = len out /\ len out + 1 <= len data)).
Proof.
  intros Hlen Hz compressed.
  pose proof (raw_deflate_nonempty _ _ Hz) as Hpos. fold compressed in Hpos.
  split; [ | split ].
  - intros H. now apply compress_file_discard.
  - intros H. split; [ now apply compress_file_keep | lia ].
  - intros out size E.
    destruct (compress_file_cases zlib_compress data) as [E'|(_ & H & E')];
      rewrite E' in E; injection E as <- <-.
    + left. auto.
    + right. fold compressed in H |- *. repeat split; lia.
Qed.

(** 4096 zero bytes, which the reference codec writes on 35 bytes. *)
Lemma compress_file_keeps_only_savings_witness :
  compress_file RefZlib.compress zeros
    = (raw_deflate RefZlib.compress zeros, 35).
Proof.
  destruct (compress_file_keeps_only_savings RefZlib.compress zeros)
    as (_ & H & _).
  - by_compute.
  - unfold zlib_nonempty. by_compute.
  - destruct H as [H _]; [ by_compute | ].
    rewrite H. f_equal.
Defined.

(** C5. When [compress_file] returns a compressed form, a raw deflate
    decoder gives the input back from the returned bytes, and these are
    strictly fewer than the input.  ([zlib.compress] is taken to return a
    zlib stream for the input: header, raw deflate data the decoder
    inverts, checksum.) *)
Theorem compressed_form_round_trips zlib_compress inflate
  (data out : bytes) (size : Z) :
  zlib_stream zlib_compress inflate data ->
  compress_file zlib_compress data = (out, size) ->
  size <> 0 ->
  inflate out = Some data /\ len out < len data /\ size = len out.
Proof.
  intros Hs E Hsize.
  destruct (raw_deflate_stream _ _ _ Hs) as [Hinf _].
  destruct (compress_file_cases zlib_compress data) as [E'|(_ & H & E')];
    rewrite E' in E; injection E as <- <-.
  - congruence.
  - auto.
Qed.

Lemma compressed_form_round_trips_witness :
  RefZlib.inflate (fst (compress_file RefZlib.compress zeros)) = Some zeros /\
  len (fst (compress_file RefZlib.compress zeros)) < len zeros.
Proof.
  destruct (compressed_form_round_trips RefZlib.compress RefZlib.inflate zeros
              (fst (compress_file RefZlib.compress zeros))
              (snd (compress_file RefZlib.compress zeros))) as (H1 & H2 & _).
  - apply compress_is_zlib_stream.
  - apply surjective_pairing.
  - vm_compute. discriminate.
  - split; assumption.
Defined.

(** C6. The manifest and the data section of an architecture go in step.
    For the files in collector order: the manifest is one 136-byte entry
    per file, the [i]-th entry being the one written for the [i]-th file
    (its path field, its size fields); the data section is the stored bytes
    of the files, in the same order; and the [i]-th file's stored bytes are
    the bytes of the data section that start where the entries before it
    end, and whose number is the compressed size when this is not zero, the
    original size when it is.  (Each zlib stream is taken to hold deflate
    data between its header and its trailer.) *)
Theorem manifest_and_data_aligned zlib_compress fs name esp_dir
  t (manifest data : bytes) (count : Z) :
  pack_arch zlib_compress fs name esp_dir = (t, Ok (manifest, data, count)) ->
  (forall f, In f (collect_files fs esp_dir) ->
     COMPRESS_THRESHOLD <= len (snd f) -> zlib_nonempty zlib_compress (snd f)) ->
  let files := collect_files fs esp_dir in
  count = len files /\
  len manifest = 136 * count /\
  data = concat (map (stored zlib_compress) files) /\
  forall i f, nth_error files i = Some f ->
    let e := manifest_entry (Z.of_nat i) manifest in
    manifest_entry_of zlib_compress f = Ok e /\
    len e = 136 /\
    path_field (fst f) = Ok (entry_path e) /\
    entry_compressed_size e = comp_size zlib_compress f /\
    entry_original_size e = len (snd f) /\
    stored_size e = len (stored zlib_compress f) /\
    field (data_start i manifest) (stored_size e) data = stored zlib_compress f.
Proof.
  intros Hp Hz files.
  apply pack_arch_ok in Hp.
  destruct Hp as (entries & Hall & -> & -> & ->). fold files in Hall, Hz |- *.
  pose proof (entries_sized _ _ _ Hall) as Hsz.
  split; [ reflexivity | ]. split.
  { rewrite (len_concat_sized _ _ Hsz). unfold manifest_entry_size.
    f_equal. apply (f_equal Z.of_nat). symmetry.
    eapply Forall2_length; eassumption. }
  split; [ reflexivity | ].
  intros i f Hi e.
  pose proof (entries_nth _ _ _ Hall i f Hi) as He. fold e in He.
  destruct (manifest_entry_of_ok _ _ _ He) as (H1 & H2 & H3 & H4).
  assert (Hss : stored_size e = len (stored zlib_compress f)).
  { unfold stored_size. rewrite H3, H4. symmetry. apply stored_len.
    apply Hz. eapply nth_error_In; eassumption. }
  repeat split; try assumption.
  rewrite Hss.
  rewrite (data_start_stored _ _ _ Hall Hz i)
    by (apply Nat.lt_le_incl, nth_error_Some; congruence).
  rewrite (nth_error_firstn_split files i f Hi) at 2.
  rewrite map_app, concat_app. cbn [map concat].
  apply field_inside; reflexivity.
Qed.

(** Two files, one of them stored compressed. *)
Lemma manifest_and_data_aligned_witness :
  let r := outcome (pack_arch RefZlib.compress fs_zeros (lit "aarch64")
                      aarch64_esp) in
  exists manifest data,
    r = Ok (manifest, data, 2) /\
    stored_size (manifest_entry 0 manifest) = 10 /\
    field 0 10 data = ten_bytes /\
    stored_size (manifest_entry 1 manifest) = 35 /\
    RefZlib.inflate (field 10 35 data) = Some zeros.
Proof.
  destruct (pack_arch RefZlib.compress fs_zeros (lit "aarch64") aarch64_esp)
    as [t [[[manifest data] count]|err]] eqn:E; [ | vm_compute in E; discriminate ].
  destruct (manifest_and_data_aligned _ _ _ _ _ _ _ _ E) as (Hc & _ & _ & Hf).
  - intros f Hin _. unfold zlib_nonempty.
    vm_compute in Hin. destruct Hin as [<-|[<-|[]]]; by_compute.
  - exists manifest, data.
    pose proof (Hf 0%nat (lit "a.txt", ten_bytes) eq_refl) as H0.
    pose proof (Hf 1%nat (lit "zero.bin", zeros) eq_refl) as H1.
    cbv zeta in H0, H1.
    destruct H0 as (_ & _ & _ & _ & _ & S0 & D0).
    destruct H1 as (_ & _ & _ & _ & _ & S1 & D1).
    change (Z.of_nat 0) with 0 in *. change (Z.of_nat 1) with 1 in *.
    assert (L0 : len (stored RefZlib.compress (lit "a.txt", ten_bytes)) = 10)
      by by_compute.
    assert (L1 : len (stored RefZlib.compress (lit "zero.bin", zeros)) = 35)
      by by_compute.
    rewrite L0 in S0. rewrite L1 in S1.
    cbn [data_start] in D0, D1. change (Z.of_nat 0) with 0 in D1.
    rewrite S0 in D0, D1. rewrite S1 in D1. cbn [Z.add] in D1.
    cbn [outcome snd]. rewrite Hc.
    split; [ vm_compute; reflexivity | ].
    split; [ exact S0 | ].
    split; [ rewrite D0; by_compute | ].
    split; [ exact S1 | rewrite D1; by_compute ].
Defined.

(** *** Runs on the example trees *)

Lemma find_arches_files count data :
  find_arches (fs_files count data) build_dir candidates
    = ([Print (MsgFound (lit "aarch64") aarch64_esp)],
       Ok [(lit "aarch64", aarch64_esp)]).
Proof. reflexivity. Qed.

Lemma collect_files_many data :
  collect_files (fs_files 640 data) aarch64_esp
    = map (fun i => (file_name i, data)) (seq 0 640).
Proof. vm_compute. reflexivity. Qed.

Lemma raw_size_same_data (names : list nat) (data : bytes) :
  raw_size (map (fun i => (file_name i, data)) names)
    = len names * (136 + len data).
Proof.
  induction names as [|i names IH]; [ reflexivity | ].
  cbn [map raw_size fold_right snd]. unfold raw_size in IH.
  rewrite IH, len_cons. lia.
Qed.

(** A tree with the one architecture [aarch64], whose files are all below
    the compression threshold: the payload is 32 bytes of header and
    table, and 136 bytes and its data for each file, whatever zlib would
    do. *)
Lemma small_files_oversize zlib_compress fs :
  outcome (find_arches fs build_dir candidates)
    = Ok [(lit "aarch64", aarch64_esp)] ->
  Forall packable_file (collect_files fs aarch64_esp) ->
  Forall (fun f => len (snd f) < COMPRESS_THRESHOLD)
    (collect_files fs aarch64_esp) ->
  max_size < 32 + raw_size (collect_files fs aarch64_esp) ->
  32 + raw_size (collect_files fs aarch64_esp) < 2 ^ 32 ->
  exists payload,
    payload_oversize zlib_compress candidates fs build_dir payload /\
    len payload = 32 + raw_size (collect_files fs aarch64_esp).
Proof.
  intros Hfind Hfiles Hsmall Hbig Hfit.
  assert (Hblob : len (arch_blob zlib_compress fs (lit "aarch64", aarch64_esp))
                  = raw_size (collect_files fs aarch64_esp)).
  { destruct (arch_blob_packable zlib_compress fs
                (lit "aarch64", aarch64_esp) Hfiles) as [Hb _].
    rewrite Hb. cbn [snd]. now apply blob_size_small. }
  destruct (assemble_total zlib_compress fs [(lit "aarch64", aarch64_esp)])
    as (t & payload & Hasm).
  - cbn. lia.
  - constructor; [ | constructor ]. split; [ | exact Hfiles ].
    eexists. vm_compute. reflexivity.
  - cbn [map concat]. rewrite app_nil_r, Hblob.
    change (len [(lit "aarch64", aarch64_esp)]) with 1. lia.
  - pose proof (assemble_len _ _ _ _ _ Hasm) as Hlen.
    cbn [map concat] in Hlen. rewrite app_nil_r, Hblob in Hlen.
    change (len [(lit "aarch64", aarch64_esp)]) with 1 in Hlen.
    exists payload. split; [ | lia ].
    exists [(lit "aarch64", aarch64_esp)].
    split; [ exact Hfind | ]. split; [ discriminate | ].
    split; [ now rewrite Hasm | lia ].
Qed.

Lemma find_arches_many :
  outcome (find_arches fs_many build_dir candidates)
    = Ok [(lit "aarch64", aarch64_esp)].
Proof. reflexivity. Qed.

Lemma packable_many : Forall packable_file (collect_files fs_many aarch64_esp).
Proof.
  assert (Hnames : forallb (fun i => is_ok (encode_utf8 (file_name i)))
                     (seq 0 640) = true) by (vm_compute; reflexivity).
  unfold fs_many. rewrite collect_files_many.
  apply Forall_forall. intros f Hin.
  apply in_map_iff in Hin. destruct Hin as (i & <- & Hi).
  split; cbn [fst snd]; [ | unfold block; rewrite len_repeat; lia ].
  rewrite forallb_forall in Hnames. specialize (Hnames i Hi).
  destruct (encode_utf8 (file_name i)) as [e|]; [ eauto | discriminate ].
Qed.

Lemma small_many :
  Forall (fun f => len (snd f) < COMPRESS_THRESHOLD)
    (collect_files fs_many aarch64_esp).
Proof.
  unfold fs_many. rewrite collect_files_many.
  apply Forall_forall. intros f Hin.
  apply in_map_iff in Hin. destruct Hin as (i & <- & _).
  cbn [snd]. unfold block. rewrite len_repeat. unfold COMPRESS_THRESHOLD. lia.
Qed.

Lemma raw_size_many : raw_size (collect_files fs_many aarch64_esp) = 2707840.
Proof.
  unfold fs_many. rewrite collect_files_many, raw_size_same_data.
  unfold block. rewrite len_repeat. reflexivity.
Qed.

(** The 640 files make the payload longer than the partition, whatever
    zlib would do. *)
Lemma many_files_oversize zlib_compress :
  exists payload,
    payload_oversize zlib_compress candidates fs_many build_dir payload /\
    len payload = 2707872.
Proof.
  pose proof raw_size_many as Hsize.
  destruct (small_files_oversize zlib_compress fs_many find_arches_many
              packable_many small_many) as (payload & H & L).
  - rewrite Hsize. unfold max_size. lia.
  - rewrite Hsize. lia.
  - exists payload. split; [ exact H | ]. rewrite L, Hsize. reflexivity.
Qed.

(** C7. When no candidate directory exists the run stops with the fatal
    condition: the error line is all it does, the exit status is 1, and no
    file is written. *)
Theorem no_architectures_is_fatal zlib_compress names fs build_dir output :
  no_architectures_found names fs build_dir ->
  main_with zlib_compress names fs build_dir output
    = ([Print MsgNoEspDirectories], Ok 1) /\
  writes (trace (main_with zlib_compress names fs build_dir output)) = [].
Proof.
  intros H. rewrite (main_with_none zlib_compress _ _ _ output H).
  split; reflexivity.
Qed.

Lemma no_architectures_is_fatal_witness :
  main RefZlib.compress fs_not_built build_dir output
    = ([Print MsgNoEspDirectories], Ok 1).
Proof.
  destruct (no_architectures_is_fatal RefZlib.compress candidates fs_not_built
              build_dir output) as [H _].
  - unfold no_architectures_found. vm_compute. reflexivity.
  - exact H.
Defined.

(** C8. When the assembled payload is longer than the partition
    (2,686,976 bytes), it is written in full to the output path, and
    nothing else is written; the warning comes after the write, and the
    exit status is 1. *)
Theorem oversize_payload_written zlib_compress names fs build_dir output
  (payload : bytes) :
  payload_oversize zlib_compress names fs build_dir payload ->
  exists t,
    main_with zlib_compress names fs build_dir output
      = (t ++ [WriteBytes output payload;
               Print (MsgPayloadWritten output (len payload));
               Print (MsgExceedsPartition (len payload) max_size)],
         Ok 1) /\
    writes t = [] /\
    max_size = 2686976.
Proof.
  intros (arches & Hf & Hne & Ha & Hlen).
  exists (trace (find_arches fs build_dir names)
            ++ trace (assemble zlib_compress fs arches)).
  rewrite (main_with_assembled zlib_compress names fs build_dir output
             arches payload Hf Hne Ha).
  destruct (Z.gtb_spec (len payload) max_size) as [_|Hle]; [ | lia ].
  rewrite <- app_assoc. split; [ reflexivity | ]. split; [ | reflexivity ].
  rewrite writes_app.
  pose proof (quiet_find_arches fs build_dir names) as Q1.
  pose proof (quiet_assemble zlib_compress fs arches) as Q2.
  unfold quiet in Q1, Q2. now rewrite Q1, Q2.
Qed.

(** 640 files of 4095 bytes: a payload of 2,707,872 bytes is written and
    the status is 1. *)
Lemma oversize_payload_written_witness :
  exists payload t,
    len payload = 2707872 /\
    main RefZlib.compress fs_many build_dir output
      = (t ++ [WriteBytes output payload;
               Print (MsgPayloadWritten output (len payload));
               Print (MsgExceedsPartition (len payload) max_size)],
         Ok 1) /\
    writes t = [].
Proof.
  destruct (many_files_oversize RefZlib.compress) as (payload & H & L).
  destruct (oversize_payload_written RefZlib.compress candidates fs_many
              build_dir output payload H) as (t & Hrun & Hq & _).
  exists payload, t. split; [ exact L | ]. split; [ exact Hrun | exact Hq ].
Defined.

(** C2, as stated, fails: a run that finds no architecture and a run whose
    payload is oversize end with the same exit status.  The first tree is
    a build directory without architectures; the second holds 640 files of
    4095 bytes under [aarch64/esp], all below the compression threshold,
    so that the payload of 2,707,872 bytes does not depend on zlib. *)
Lemma exit_status_shared :
  no_architectures_found candidates fs_not_built build_dir /\
  (exists payload,
     payload_oversize RefZlib.compress candidates fs_many build_dir payload) /\
  outcome (main RefZlib.compress fs_not_built build_dir output) = Ok 1 /\
  outcome (main RefZlib.compress fs_many build_dir output) = Ok 1.
Proof.
  assert (Hnone : no_architectures_found candidates fs_not_built build_dir)
    by (unfold no_architectures_found; vm_compute; reflexivity).
  destruct (many_files_oversize RefZlib.compress) as (payload & Hover & _).
  split; [ exact Hnone | ]. split; [ eauto | ]. split.
  - unfold main. now rewrite (main_with_none _ _ _ _ output Hnone).
  - destruct Hover as (arches & Hf & Hne & Ha & Hlen).
    unfold main.
    rewrite (main_with_assembled _ _ _ _ output arches payload Hf Hne Ha).
    cbn [outcome snd].
    destruct (Z.gtb_spec (len payload) max_size); [ reflexivity | lia ].
Qed.

(** C2, amended.  Both conditions end the run with exit status 1.  What
    tells them apart is what the run did: with no architecture found
    nothing is written and the error line is all that is printed; with an
    oversize payload the payload is written, and the line printed last is
    the warning. *)
Theorem conditions_told_apart_by_effects zlib_compress names
  fs1 build_dir1 output1 fs2 build_dir2 output2 (payload : bytes) :
  no_architectures_found names fs1 build_dir1 ->
  payload_oversize zlib_compress names fs2 build_dir2 payload ->
  let none := main_with zlib_compress names fs1 build_dir1 output1 in
  let over := main_with zlib_compress names fs2 build_dir2 output2 in
  outcome none = Ok 1 /\
  outcome over = Ok 1 /\
  trace none = [Print MsgNoEspDirectories] /\
  writes (trace none) = [] /\
  writes (trace over) = [WriteBytes output2 payload] /\
  last (trace over) (Print MsgNoEspDirectories)
    = Print (MsgExceedsPartition (len payload) max_size).
Proof.
  intros Hnone (arches & Hf & Hne & Ha & Hlen) none over.
  subst none over.
  rewrite (main_with_none zlib_compress _ _ _ output1 Hnone).
  rewrite (main_with_assembled zlib_compress _ _ _ output2 arches payload
             Hf Hne Ha).
  destruct (Z.gtb_spec (len payload) max_size) as [_|Hle]; [ | lia ].
  cbn [outcome trace fst snd].
  pose proof (quiet_find_arches fs2 build_dir2 names) as Q1.
  pose proof (quiet_assemble zlib_compress fs2 arches) as Q2.
  unfold quiet in Q1, Q2.
  repeat split.
  - rewrite !writes_app, Q1, Q2. reflexivity.
  - rewrite !app_assoc.
    change [WriteBytes output2 payload;
            Print (MsgPayloadWritten output2 (len payload));
            Print (MsgExceedsPartition (len payload) max_size)]
      with ([WriteBytes output2 payload;
             Print (MsgPayloadWritten output2 (len payload))]
              ++ [Print (MsgExceedsPartition (len payload) max_size)]).
    rewrite app_assoc. apply last_last.
Qed.

Lemma conditions_told_apart_by_effects_witness :
  exists payload,
    outcome (main RefZlib.compress fs_not_built build_dir output) = Ok 1 /\
    outcome (main RefZlib.compress fs_many build_dir output) = Ok 1 /\
    writes (trace (main RefZlib.compress fs_not_built build_dir output)) = [] /\
    writes (trace (main RefZlib.compress fs_many build_dir output))
      = [WriteBytes output payload].
Proof.
  destruct (many_files_oversize RefZlib.compress) as (payload & Hover & _).
  destruct (conditions_told_apart_by_effects RefZlib.compress candidates
              fs_not_built build_dir output fs_many build_dir output payload)
    as (H1 & H2 & _ & H4 & H5 & _).
  - unfold no_architectures_found. vm_compute. reflexivity.
  - exact Hover.
  - exists payload.
    split; [ exact H1 | ]. split; [ exact H2 | ].
    split; [ exact H4 | exact H5 ].
Defined.

(** C9. An architecture without files is not an error.  [pack_arch]
    prints the warning and returns an empty manifest, empty data and the
    count 0.  In an assembled payload its table entry has file_count 0 and
    its blob is empty: the blobs before the next architecture are those
    before it.  Its turn of the loop of [main] goes through whenever the
    name encodes and the offset fits its field, leaving the offset where it
    was.  And a run that finds this architecture alone writes a payload of
    32 bytes and ends with status 0. *)
Theorem empty_architecture_packed zlib_compress fs (a : str * path) :
  collect_files fs (snd a) = [] ->
  pack_arch zlib_compress fs (fst a) (snd a)
    = ([Print (MsgNoFiles (snd a))], Ok ([], [], 0)) /\
  (forall arches i t payload,
     nth_error arches i = Some a ->
     assemble zlib_compress fs arches = (t, Ok payload) ->
     entry_file_count (arch_entry (Z.of_nat i) payload) = 0 /\
     arch_blob zlib_compress fs a = [] /\
     blobs_before zlib_compress fs arches (S i)
       = blobs_before zlib_compress fs arches i) /\
  (forall st name_bytes,
     name_field (fst a) = Ok name_bytes ->
     0 <= data_offset st < 2 ^ 32 ->
     exists e,
       pack_entry zlib_compress fs st a
         = ([Print (MsgPacking (fst a)); Print (MsgNoFiles (snd a))],
            Ok {| arch_table := arch_table st ++ e;
                  arch_blobs := arch_blobs st ++ [[]];
                  data_offset := data_offset st |}) /\
       entry_file_count e = 0 /\
       entry_offset e = data_offset st) /\
  (forall names build_dir output,
     outcome (find_arches fs build_dir names) = Ok [a] ->
     (exists e, encode_utf8 (fst a) = Ok e) ->
     exists t payload,
       main_with zlib_compress names fs build_dir output
         = (t ++ [WriteBytes output payload;
                  Print (MsgPayloadWritten output 32);
                  Print (MsgPartitionUsage 32 max_size)],
            Ok 0) /\
       len payload = 32 /\
       entry_file_count (arch_entry 0 payload) = 0 /\
       entry_offset (arch_entry 0 payload) = 32).
Proof.
  intros Hempty.
  assert (Hpack : pack_arch zlib_compress fs (fst a) (snd a)
                  = ([Print (MsgNoFiles (snd a))], Ok ([], [], 0))).
  { unfold pack_arch. rewrite Hempty. reflexivity. }
  assert (Hblob : arch_blob zlib_compress fs a = []).
  { unfold arch_blob. now rewrite Hpack. }
  assert (Hcount : arch_file_count zlib_compress fs a = 0).
  { unfold arch_file_count. now rewrite Hpack. }
  split; [ exact Hpack | ]. split; [ | split ].
  - intros arches i t payload Hi Hasm.
    pose proof (assemble_entry_written _ _ _ _ _ _ _ Hasm Hi) as Hw.
    apply entry_written_ok in Hw. destruct Hw as (_ & _ & _ & Hc & _).
    split; [ now rewrite Hc | ]. split; [ exact Hblob | ].
    rewrite (blobs_before_succ _ _ _ _ _ Hi), Hblob. apply app_nil_r.
  - intros st name_bytes Hname Hoff.
    destruct a as [arch_name esp_dir]. cbn [fst snd] in *.
    unfold pack_entry. rewrite Hpack. cbn [print bind app].
    rewrite Hname. cbn [lift bind app].
    unfold pack_arch_entry.
    rewrite (pack_I_in_range (data_offset st)) by lia.
    rewrite (pack_I_in_range 0) by lia.
    cbn [bind_result bind ret app].
    exists (pack_s 16 name_bytes ++ le_bytes 4 (data_offset st) ++ le_bytes 4 0).
    change (len ([] ++ [])) with 0. rewrite Z.add_0_r.
    split; [ reflexivity | ].
    destruct (name_field_ok _ _ Hname) as (enc & _ & _ & Hlen).
    destruct (pack_arch_entry_ok name_bytes (data_offset st) 0
                (pack_s 16 name_bytes ++ le_bytes 4 (data_offset st)
                   ++ le_bytes 4 0) Hlen) as (_ & _ & Ho & Hc & _).
    + unfold pack_arch_entry.
      rewrite (pack_I_in_range (data_offset st)) by lia.
      rewrite (pack_I_in_range 0) by lia. reflexivity.
    + auto.
  - intros names build_dir output Hfind Henc.
    destruct (assemble_total zlib_compress fs [a]) as (t & payload & Hasm).
    + cbn. lia.
    + constructor; [ | constructor ]. split; [ exact Henc | ].
      rewrite Hempty. constructor.
    + cbn [map concat]. rewrite Hblob. cbn. lia.
    + pose proof (assemble_len _ _ _ _ _ Hasm) as Hlen.
      cbn [map concat] in Hlen. rewrite Hblob in Hlen.
      change (8 + 24 * len [a] + len ([] ++ [])) with 32 in Hlen.
      pose proof (assemble_entry_written _ _ _ _ _ 0%nat a Hasm eq_refl) as Hw.
      apply entry_written_ok in Hw. destruct Hw as (_ & _ & Ho & Hc & _).
      change (Z.of_nat 0) with 0 in *.
      exists (trace (find_arches fs build_dir names)
                ++ trace (assemble zlib_compress fs [a])), payload.
      rewrite (main_with_assembled zlib_compress names fs build_dir output
                 [a] payload Hfind); [ | discriminate | now rewrite Hasm ].
      rewrite Hlen. change (32 >? max_size) with false. cbv iota.
      rewrite <- app_assoc.
      split; [ reflexivity | ]. split; [ reflexivity | ].
      split; [ now rewrite Hc | ].
      rewrite Ho. unfold blobs_before. cbn [firstn map concat].
      reflexivity.
Qed.

(** [build/aarch64/esp] exists and is empty. *)
Lemma empty_architecture_packed_witness :
  exists t payload,
    main RefZlib.compress fs_empty_esp build_dir output
      = (t ++ [WriteBytes output payload;
               Print (MsgPayloadWritten output 32);
               Print (MsgPartitionUsage 32 max_size)],
         Ok 0) /\
    len payload = 32 /\
    entry_file_count (arch_entry 0 payload) = 0.
Proof.
  destruct (empty_architecture_packed RefZlib.compress fs_empty_esp
              (lit "aarch64", aarch64_esp)) as (_ & _ & _ & H).
  - vm_compute. reflexivity.
  - destruct (H candidates build_dir output) as (t & payload & H1 & H2 & H3 & _).
    + vm_compute. reflexivity.
    + eexists. vm_compute. reflexivity.
    + exists t, payload. split; [ exact H1 | ]. split; [ exact H2 | exact H3 ].
Defined.

(** * Further properties *)

Import Unpack MoreExamples.

(** ** [compress_file] and the size of what is stored *)

(** X1. Whatever [zlib.compress] returns, [compress_file] never returns
    more bytes than it was given: the result is the input itself with
    size 0, or strictly shorter than the input with its length as size.
    An input below the threshold is returned as it is. *)
Theorem compress_file_never_expands zlib_compress (data : bytes) :
  let out := fst (compress_file zlib_compress data) in
  let size := snd (compress_file zlib_compress data) in
  len out <= len data /\
  0 <= size <= len data /\
  ((out = data /\ size = 0) \/ (len out < len data /\ size = len out)) /\
  (len data < COMPRESS_THRESHOLD -> out = data /\ size = 0).
Proof.
  cbv zeta. pose proof (len_nonneg data) as Hn.
  destruct (compress_file_cases zlib_compress data) as [E|(H1 & H2 & E)];
    rewrite E; cbn [fst snd].
  - split; [ lia | ]. split; [ lia | ]. split; [ left | ]; auto.
  - pose proof (len_nonneg (raw_deflate zlib_compress data)) as Hr.
    split; [ lia | ]. split; [ lia | ].
    split; [ right; split; [ lia | reflexivity ] | ].
    intros Hsmall. lia.
Qed.

Lemma stored_le zlib_compress (f : str * bytes) :
  len (stored zlib_compress f) <= len (snd f).
Proof.
  destruct f as [p d]. unfold stored. cbn [snd].
  destruct (compress_file_cases zlib_compress d) as [E|(H1 & H2 & E)];
    rewrite E; cbn [fst]; lia.
Qed.

Lemma blob_size_le_raw zlib_compress (files : list (str * bytes)) :
  blob_size zlib_compress files <= raw_size files.
Proof.
  induction files as [|f files IH]; [ cbn; lia | ].
  cbn [blob_size raw_size fold_right]. unfold blob_size, raw_size in IH.
  apply Z.add_le_mono; [ | exact IH ].
  apply Z.add_le_mono_l. exact (stored_le zlib_compress f).
Qed.

Lemma raw_size_nonneg (files : list (str * bytes)) : 0 <= raw_size files.
Proof.
  induction files as [|f files IH]; [ cbn; lia | ].
  cbn [raw_size fold_right]. unfold raw_size in IH.
  apply Z.add_nonneg_nonneg; [ | exact IH ].
  apply Z.add_nonneg_nonneg; [ lia | apply len_nonneg ].
Qed.

(** ** The first loop of [main] *)

(** X2. The architectures [main] packs are the candidates whose [esp]
    directory exists, in the order of the candidates; a missing directory
    is skipped without a word, and one line is printed for each
    architecture found. *)
Theorem find_arches_filter fs build_dir (names : list str) :
  let esp := fun n => build_dir ++ [n; str_of_string "esp"] in
  let found := filter (fun n => exists_ fs (esp n)) names in
  find_arches fs build_dir names
    = (map (fun n => Print (MsgFound n (esp n))) found,
       Ok (map (fun n => (n, esp n)) found)).
Proof.
  cbv zeta. induction names as [|n names IH]; [ reflexivity | ].
  cbn [find_arches filter].
  destruct (exists_ fs (build_dir ++ [n; str_of_string "esp"])).
  - rewrite IH. cbn [bind print ret app map]. now rewrite app_nil_r.
  - exact IH.
Qed.

(** ** What an assembled payload says of its architectures *)

Import Sizes.

Section Assembled.
Variable zlib_compress : bytes -> Z -> bytes.
Variable fs : node.

(** A turn of the second loop of [main] that goes through has packed the
    architecture. *)
Lemma pack_entry_packed st (a : str * path) t st' :
  pack_entry zlib_compress fs st a = (t, Ok st') ->
  exists tr manifest data,
    pack_arch zlib_compress fs (fst a) (snd a)
      = (tr, Ok (manifest, data, len (collect_files fs (snd a)))).
Proof.
  destruct a as [arch_name esp_dir]. unfold pack_entry. intros H.
  apply bind_ok in H. destruct H as (t0 & [] & t1 & _ & H & _).
  apply bind_ok in H. destruct H as (t2 & [[m d] c] & t3 & Hp & _ & _).
  cbn [fst snd].
  destruct (pack_arch_ok _ _ _ _ _ _ _ _ Hp) as (entries & _ & _ & _ & ->).
  eauto.
Qed.

Lemma table_loop_packed (arches : list (str * path)) :
  forall st t st',
  for_each arches (pack_entry zlib_compress fs) st = (t, Ok st') ->
  Forall (fun a => exists tr manifest data,
            pack_arch zlib_compress fs (fst a) (snd a)
              = (tr, Ok (manifest, data, len (collect_files fs (snd a)))))
    arches.
Proof.
  induction arches as [|a arches IH]; intros st t st' H; [ constructor | ].
  apply for_each_cons_ok in H. destruct H as (t1 & st1 & t2 & H1 & H2 & _).
  constructor; [ eapply pack_entry_packed; eassumption | eauto ].
Qed.

Lemma assemble_packed arches t payload :
  assemble zlib_compress fs arches = (t, Ok payload) ->
  Forall (fun a => exists tr manifest data,
            pack_arch zlib_compress fs (fst a) (snd a)
              = (tr, Ok (manifest, data, len (collect_files fs (snd a)))))
    arches.
Proof.
  unfold assemble. intros H.
  apply bind_ok in H. destruct H as (t0 & header & t1 & _ & H & _).
  apply bind_ok in H. destruct H as (t2 & st & t3 & Hloop & _ & _).
  eapply table_loop_packed; eassumption.
Qed.

(** The blob of a packed architecture: its entries, then its stored files. *)
Lemma packed_blob (a : str * path) tr manifest data count :
  pack_arch zlib_compress fs (fst a) (snd a) = (tr, Ok (manifest, data, count)) ->
  arch_blob zlib_compress fs a = manifest ++ data /\
  arch_file_count zlib_compress fs a = len (collect_files fs (snd a)) /\
  len manifest = manifest_entry_size * len (collect_files fs (snd a)) /\
  len (arch_blob zlib_compress fs a) <= raw_size (collect_files fs (snd a)).
Proof.
  intros Hp. unfold arch_blob, arch_file_count, outcome. rewrite Hp. cbn [snd].
  destruct (pack_arch_ok _ _ _ _ _ _ _ _ Hp) as (entries & Hall & -> & -> & ->).
  split; [ reflexivity | ]. split; [ reflexivity | ].
  assert (Hlen : len (concat entries)
                 = manifest_entry_size * len (collect_files fs (snd a))).
  { rewrite (len_concat_sized _ _ (entries_sized _ _ _ Hall)).
    f_equal. apply (f_equal Z.of_nat). symmetry.
    eapply Forall2_length; eassumption. }
  split; [ exact Hlen | ].
  rewrite len_app, (blob_size_entries _ _ _ Hall).
  apply blob_size_le_raw.
Qed.

Lemma header_bytes n header :
  pack_header n = Ok header ->
  header = bytes_of_string "SURV" ++ [byte_of_Z 1; byte_of_Z n; x00; x00].
Proof.
  unfold pack_header. intros H.
  apply bind_result_ok in H. destruct H as (v & Hv & H).
  apply bind_result_ok in H. destruct H as (c & Hc & H).
  apply bind_result_ok in H. destruct H as (r & Hr & H).
  injection H as <-.
  apply pack_uint_ok in Hv, Hc, Hr.
  destruct Hv as [-> _], Hc as [-> _], Hr as [-> _]. reflexivity.
Qed.

End Assembled.

(** X3. An assembled payload describes itself.  It starts with the magic
    [SURV], the version 1, the number of architectures (at most 255) and
    two zero bytes; its length is the 8 bytes of the header, 24 bytes for
    each architecture and the blobs; and the table entry of each
    architecture holds its name field and the number of files collected
    for it, whose manifest of 136 bytes each starts the blob. *)
Theorem payload_describes_architectures zlib_compress fs arches t payload :
  assemble zlib_compress fs arches = (t, Ok payload) ->
  field 0 4 payload = bytes_of_string "SURV" /\
  u8_at 4 payload = 1 /\
  header_arch_count payload = len arches /\
  field 6 2 payload = [x00; x00] /\
  len arches <= 255 /\
  len payload
    = 8 + 24 * len arches
        + len (concat (map (arch_blob zlib_compress fs) arches)) /\
  forall i a, nth_error arches i = Some a ->
    let e := arch_entry (Z.of_nat i) payload in
    name_field (fst a) = Ok (entry_name e) /\
    entry_file_count e = len (collect_files fs (snd a)) /\
    136 * entry_file_count e <= len (arch_blob zlib_compress fs a).
Proof.
  intros Hasm.
  pose proof (assemble_len _ _ _ _ _ Hasm) as Hlen.
  pose proof (assemble_packed _ _ _ _ _ Hasm) as Hpacked.
  assert (Hent : forall i a, nth_error arches i = Some a ->
            entry_written zlib_compress fs
              (header_size + arch_entry_size * len arches
                 + len (blobs_before zlib_compress fs arches i))
              a (arch_entry (Z.of_nat i) payload))
    by (intros; eapply assemble_entry_written; eassumption).
  apply assemble_ok in Hasm.
  destruct Hasm as (header & entries & Hh & _ & _ & -> & _).
  destruct (pack_header_ok _ _ Hh) as (Hl & Hcount & Hrange).
  pose proof (header_bytes _ _ Hh) as Hbytes.
  assert (Hpre : forall ofs n, 0 <= ofs -> 0 <= n -> ofs + n <= 8 ->
            field ofs n (header ++ concat entries
                           ++ concat (map (arch_blob zlib_compress fs) arches))
            = field ofs n header).
  { intros ofs n H1 H2 H3. apply field_within; try assumption.
    rewrite Hl. unfold header_size. lia. }
  split; [ rewrite Hpre by lia; rewrite Hbytes; reflexivity | ].
  split.
  { unfold u8_at. rewrite Hpre by lia. rewrite Hbytes. reflexivity. }
  split.
  { unfold header_arch_count, u8_at. rewrite Hpre by lia. exact Hcount. }
  split; [ rewrite Hpre by lia; rewrite Hbytes; reflexivity | ].
  split; [ lia | ]. split; [ exact Hlen | ].
  intros i a Hi e.
  pose proof (Hent i a Hi) as Hw. fold e in Hw.
  apply entry_written_ok in Hw. destruct Hw as (_ & Hname & _ & Hc & _).
  rewrite Forall_forall in Hpacked.
  destruct (Hpacked a (nth_error_In _ _ Hi)) as (tr & m & d & Hp).
  destruct (packed_blob _ _ _ _ _ _ _ Hp) as (Hb & Hcnt & Hm & _).
  split; [ exact Hname | ]. rewrite Hc, Hcnt. split; [ reflexivity | ].
  rewrite Hb, len_app. pose proof (len_nonneg d).
  unfold manifest_entry_size in Hm. lia.
Qed.

Lemma payload_describes_architectures_witness :
  let payload :=
    match outcome (assemble RefZlib.compress fs_both
                     [(lit "aarch64", aarch64_esp); (lit "x86_64", x86_64_esp)])
    with Ok p => p | Raise _ => [] end in
  field 0 4 payload = bytes_of_string "SURV" /\
  header_arch_count payload = 2 /\
  entry_file_count (arch_entry 1 payload) = 2.
Proof.
  destruct (payload_describes_architectures RefZlib.compress fs_both
    [(lit "aarch64", aarch64_esp); (lit "x86_64", x86_64_esp)]
    (trace (assemble RefZlib.compress fs_both
              [(lit "aarch64", aarch64_esp); (lit "x86_64", x86_64_esp)]))
    (match outcome (assemble RefZlib.compress fs_both
                     [(lit "aarch64", aarch64_esp); (lit "x86_64", x86_64_esp)])
     with Ok p => p | Raise _ => [] end))
    as (H1 & _ & H3 & _ & _ & _ & H7).
  - vm_compute. reflexivity.
  - cbv zeta. split; [ exact H1 | ]. split; [ exact H3 | ].
    destruct (H7 1%nat (lit "x86_64", x86_64_esp) eq_refl) as (_ & Hc & _).
    exact Hc.
Defined.

(** ** The ways a run of [main] ends *)

Section Runs.
Variable zlib_compress : bytes -> Z -> bytes.

(** A run that cannot assemble the payload stops there. *)
Lemma main_with_raise names fs build_dir output arches e :
  outcome (find_arches fs build_dir names) = Ok arches ->
  arches <> [] ->
  outcome (assemble zlib_compress fs arches) = Raise e ->
  main_with zlib_compress names fs build_dir output
    = (trace (find_arches fs build_dir names)
         ++ trace (assemble zlib_compress fs arches),
       Raise e).
Proof.
  intros Hf Hne Ha. unfold main_with.
  destruct (find_arches fs build_dir names) as [t1 r1].
  destruct arches as [|a arches]; [ congruence | ].
  cbn [trace outcome fst snd] in *. subst r1. cbn [bind].
  destruct (assemble zlib_compress fs (a :: arches)) as [t2 r2].
  cbn [trace outcome fst snd] in *. subst r2. reflexivity.
Qed.

(** The three ways: nothing found; the payload cannot be assembled; the
    payload is written. *)
Lemma main_with_cases names fs build_dir output :
  (outcome (find_arches fs build_dir names) = Ok [] /\
   main_with zlib_compress names fs build_dir output
     = ([Print MsgNoEspDirectories], Ok 1)) \/
  (exists arches e t,
     outcome (find_arches fs build_dir names) = Ok arches /\ arches <> [] /\
     outcome (assemble zlib_compress fs arches) = Raise e /\
     main_with zlib_compress names fs build_dir output = (t, Raise e) /\
     writes t = []) \/
  (exists arches payload t,
     outcome (find_arches fs build_dir names) = Ok arches /\ arches <> [] /\
     outcome (assemble zlib_compress fs arches) = Ok payload /\
     main_with zlib_compress names fs build_dir output
       = (t ++ [WriteBytes output payload;
                Print (MsgPayloadWritten output (len payload));
                Print (if len payload >? max_size
                       then MsgExceedsPartition (len payload) max_size
                       else MsgPartitionUsage (len payload) max_size)],
          Ok (if len payload >? max_size then 1 else 0)) /\
     writes t = []).
Proof.
  destruct (find_arches_total fs build_dir names) as [arches Hf].
  assert (Hq : writes (trace (find_arches fs build_dir names)
                         ++ trace (assemble zlib_compress fs arches)) = []).
  { rewrite writes_app.
    pose proof (quiet_find_arches fs build_dir names) as Q1.
    pose proof (quiet_assemble zlib_compress fs arches) as Q2.
    unfold quiet in Q1, Q2. now rewrite Q1, Q2. }
  destruct arches as [|a arches].
  - left. split; [ exact Hf | now apply main_with_none ].
  - right.
    destruct (outcome (assemble zlib_compress fs (a :: arches)))
      as [payload|e] eqn:Ha.
    + right. exists (a :: arches), payload. eexists.
      split; [ exact Hf | ]. split; [ discriminate | ].
      split; [ exact Ha | ]. split; [ | exact Hq ].
      rewrite (main_with_assembled zlib_compress names fs build_dir output
                 (a :: arches) payload Hf); [ | discriminate | exact Ha ].
      now rewrite <- app_assoc.
    + left. exists (a :: arches), e. eexists.
      split; [ exact Hf | ]. split; [ discriminate | ].
      split; [ exact Ha | ]. split; [ | exact Hq ].
      apply main_with_raise; [ exact Hf | discriminate | exact Ha ].
Qed.

End Runs.

(** X4. A run that ends with an exception has written nothing: the
    exceptions ([UnicodeEncodeError] for a name, [struct.error] for a
    size or an offset) are raised while the payload is assembled, before
    the output file is opened. *)
Theorem failed_run_writes_nothing zlib_compress names fs build_dir output e :
  outcome (main_with zlib_compress names fs build_dir output) = Raise e ->
  writes (trace (main_with zlib_compress names fs build_dir output)) = [].
Proof.
  intros H.
  destruct (main_with_cases zlib_compress names fs build_dir output)
    as [[_ E]|[(arches & e' & t & _ & _ & _ & E & Hq)
              |(arches & payload & t & _ & _ & _ & E & _)]];
    rewrite E in H |- *; cbn [outcome trace fst snd] in *.
  - discriminate.
  - exact Hq.
  - discriminate.
Qed.

(** A file name with a lone surrogate stops the run. *)
Lemma failed_run_writes_nothing_witness :
  outcome (main RefZlib.compress fs_surrogate build_dir output)
    = Raise UnicodeEncodeError /\
  writes (trace (main RefZlib.compress fs_surrogate build_dir output)) = [].
Proof.
  split.
  - vm_compute. reflexivity.
  - apply (failed_run_writes_nothing RefZlib.compress candidates fs_surrogate
             build_dir output UnicodeEncodeError).
    vm_compute. reflexivity.
Defined.

(** X5. The exit status of a run is 0 or 1, and it is 0 exactly when some
    architecture was found, the payload was assembled and it is no longer
    than the partition.  A run writes at most one file, the payload, to
    the output path it was given. *)
Theorem exit_status_zero zlib_compress names fs build_dir output :
  let run := main_with zlib_compress names fs build_dir output in
  (outcome run = Ok 0 <->
   exists arches payload,
     outcome (find_arches fs build_dir names) = Ok arches /\ arches <> [] /\
     outcome (assemble zlib_compress fs arches) = Ok payload /\
     len payload <= max_size) /\
  (forall s, outcome run = Ok s -> s = 0 \/ s = 1) /\
  (writes (trace run) = [] \/
   exists arches payload,
     outcome (find_arches fs build_dir names) = Ok arches /\
     outcome (assemble zlib_compress fs arches) = Ok payload /\
     writes (trace run) = [WriteBytes output payload]).
Proof.
  cbv zeta.
  destruct (main_with_cases zlib_compress names fs build_dir output)
    as [[Hf E]|[(arches & e' & t & Hf & Hne & Ha & E & Hq)
               |(arches & payload & t & Hf & Hne & Ha & E & Hq)]];
    rewrite E; cbn [outcome trace fst snd].
  - split; [ split | split ].
    + discriminate.
    + intros (arches & payload & Hf' & Hne & _).
      rewrite Hf in Hf'. injection Hf' as <-. congruence.
    + intros s [= <-]. auto.
    + left. reflexivity.
  - split; [ split | split ].
    + discriminate.
    + intros (arches' & payload & Hf' & _ & Ha' & _).
      rewrite Hf in Hf'. injection Hf' as <-. congruence.
    + discriminate.
    + left. exact Hq.
  - split; [ split | split ].
    + intros H. exists arches, payload.
      repeat split; try assumption.
      destruct (Z.gtb_spec (len payload) max_size); [ discriminate | lia ].
    + intros (arches' & payload' & Hf' & _ & Ha' & Hle).
      rewrite Hf in Hf'. injection Hf' as <-.
      rewrite Ha in Ha'. injection Ha' as <-.
      destruct (Z.gtb_spec (len payload) max_size); [ lia | reflexivity ].
    + intros s [= <-]. destruct (len payload >? max_size); auto.
    + right. exists arches, payload.
      split; [ exact Hf | ]. split; [ exact Ha | ].
      rewrite writes_app, Hq. reflexivity.
Qed.

Lemma blobs_le_raw_total zlib_compress fs (arches : list (str * path)) :
  Forall (packable_arch fs) arches ->
  len (concat (map (arch_blob zlib_compress fs) arches)) <= raw_total fs arches.
Proof.
  induction 1 as [|a arches [_ Ha] _ IH]; [ cbn; lia | ].
  cbn [map concat raw_total fold_right]. rewrite len_app.
  unfold raw_total in IH.
  destruct (arch_blob_packable zlib_compress fs a Ha) as [Hb _].
  pose proof (blob_size_le_raw zlib_compress (collect_files fs (snd a))).
  lia.
Qed.

Lemma raw_total_nonneg fs (arches : list (str * path)) : 0 <= raw_total fs arches.
Proof.
  induction arches as [|a arches IH]; [ cbn; lia | ].
  cbn [raw_total fold_right]. unfold raw_total in IH.
  pose proof (raw_size_nonneg (collect_files fs (snd a))). lia.
Qed.

(** X6. If the tree fits the partition without compression, the run
    succeeds whatever zlib does: when the names encode and the header, the
    table, and 136 bytes plus its size for each file make no more than the
    partition, [main] writes one payload no longer than that and ends with
    status 0. *)
Theorem uncompressed_fit_succeeds zlib_compress names fs build_dir output arches :
  outcome (find_arches fs build_dir names) = Ok arches ->
  arches <> [] ->
  len arches < 256 ->
  Forall (packable_arch fs) arches ->
  8 + 24 * len arches + raw_total fs arches <= max_size ->
  exists payload,
    outcome (main_with zlib_compress names fs build_dir output) = Ok 0 /\
    writes (trace (main_with zlib_compress names fs build_dir output))
      = [WriteBytes output payload] /\
    len payload <= 8 + 24 * len arches + raw_total fs arches.
Proof.
  intros Hf Hne Hn Hpack Hfit.
  pose proof (blobs_le_raw_total zlib_compress fs arches Hpack) as Hle.
  destruct (assemble_total zlib_compress fs arches Hn Hpack) as (t & payload & Hasm).
  { unfold max_size in Hfit. lia. }
  pose proof (assemble_len _ _ _ _ _ Hasm) as Hlen.
  exists payload.
  rewrite (main_with_assembled zlib_compress names fs build_dir output
             arches payload Hf Hne) by now rewrite Hasm.
  cbn [outcome trace fst snd].
  destruct (Z.gtb_spec (len payload) max_size) as [Hgt|_]; [ lia | ].
  split; [ reflexivity | ]. split; [ | lia ].
  rewrite !writes_app.
  pose proof (quiet_find_arches fs build_dir names) as Q1.
  pose proof (quiet_assemble zlib_compress fs arches) as Q2.
  unfold quiet in Q1, Q2. rewrite Q1, Q2. reflexivity.
Qed.

Ltac packable_by_compute :=
  repeat match goal with
    | |- Forall _ (_ :: _) => constructor
    | |- Forall _ [] => constructor
    | |- packable_arch _ _ => split
    | |- packable_file _ => split
    | |- exists e, encode_utf8 _ = Ok e => eexists; vm_compute; reflexivity
    | |- len _ < _ => by_compute
    end.

Lemma uncompressed_fit_succeeds_witness :
  exists payload,
    outcome (main RefZlib.compress fs_both build_dir output) = Ok 0 /\
    writes (trace (main RefZlib.compress fs_both build_dir output))
      = [WriteBytes output payload].
Proof.
  destruct (uncompressed_fit_succeeds RefZlib.compress candidates fs_both
              build_dir output
              [(lit "aarch64", aarch64_esp); (lit "x86_64", x86_64_esp)])
    as (payload & H1 & H2 & _).
  - vm_compute. reflexivity.
  - discriminate.
  - by_compute.
  - constructor; [ | constructor; [ | constructor ] ]; split.
    + eexists. vm_compute. reflexivity.
    + cbn [snd].
      replace (collect_files fs_both aarch64_esp)
        with [(lit "a.txt", ten_bytes)] by (vm_compute; reflexivity).
      packable_by_compute.
    + eexists. vm_compute. reflexivity.
    + cbn [snd].
      replace (collect_files fs_both x86_64_esp)
        with [(lit "EFI/zero.bin", zeros); (lit "b.bin", [x01; x02; x03])]
        by (vm_compute; reflexivity).
      packable_by_compute.
  - apply Z.leb_le. vm_compute. reflexivity.
  - exists payload. split; [ exact H1 | exact H2 ].
Defined.

(** ** Reading back what was packed *)

Lemma byte_of_Z_not_null v : 0 < v < 256 -> byte_of_Z v <> x00.
Proof.
  intros Hv E. apply (f_equal Z_of_byte) in E.
  rewrite Z_of_byte_of_Z_small in E by lia.
  change (Z_of_byte x00) with 0 in E. lia.
Qed.

Lemma not_null_by_value b : 0 < Z_of_byte b -> b <> x00.
Proof.
  intros H E. subst b. change (Z_of_byte x00) with 0 in H. lia.
Qed.

(** The bytes of a code point other than U+0000 are not null. *)
Lemma encode_cp_no_null c bs :
  encode_cp c = Some bs -> c <> 0 -> ~ In x00 bs.
Proof.
  unfold encode_cp.
  destruct (Z.ltb_spec c 0); [ discriminate | ].
  assert (Hcont : forall x, byte_of_Z (Z.lor 0x80 (Z.land x 0x3F)) <> x00).
  { intros x. apply not_null_by_value. rewrite cont_value.
    pose proof (Z.mod_pos_bound x 64 eq_refl). lia. }
  destruct (Z.ltb_spec c 0x80).
  { some_inj. intros Hc [E|[]]. revert E. apply byte_of_Z_not_null. lia. }
  destruct (Z.ltb_spec c 0x800).
  { some_inj. intros _ [E|[E|[]]]; revert E; [ | apply Hcont ].
    apply not_null_by_value.
    rewrite lead2_value by lia. pose proof (Z.div_pos c 64). lia. }
  destruct (Z.ltb_spec c 0x10000).
  { destruct (is_surrogate c); [ discriminate | ].
    some_inj. intros _ [E|[E|[E|[]]]]; revert E; [ | apply Hcont .. ].
    apply not_null_by_value.
    rewrite lead3_value by lia. pose proof (Z.div_pos c 4096). lia. }
  destruct (Z.ltb_spec c 0x110000); [ | discriminate ].
  some_inj. intros _ [E|[E|[E|[E|[]]]]]; revert E; [ | apply Hcont .. ].
  apply not_null_by_value.
  rewrite lead4_value by lia. pose proof (Z.div_pos c 262144). lia.
Qed.

Lemma encode_utf8_no_null s : forall e,
  encode_utf8 s = Ok e -> ~ In 0 s -> ~ In x00 e.
Proof.
  induction s as [|c s IH]; intros e; cbn [encode_utf8].
  - intros [= <-] _ [].
  - destruct (encode_cp c) as [bs|] eqn:Ec; [ | discriminate ].
    destruct (encode_utf8 s) as [rest|] eqn:Es; [ | discriminate ].
    intros [= <-] Hn Hin. apply in_app_or in Hin. destruct Hin as [Hin|Hin].
    + apply (encode_cp_no_null c bs Ec); [ | exact Hin ].
      intros ->. apply Hn. now left.
    + apply (IH rest eq_refl); [ | exact Hin ].
      intros H0. apply Hn. now right.
Qed.

Lemma cstring_terminated (e r : bytes) :
  ~ In x00 e -> cstring (e ++ x00 :: r) = e.
Proof.
  induction e as [|b e IH]; intros Hn; cbn [app cstring].
  - reflexivity.
  - destruct (Byte.eqb b x00) eqn:E.
    + apply Byte.byte_dec_bl in E. exfalso. apply Hn. now left.
    + f_equal. apply IH. intros H. apply Hn. now right.
Qed.

(** A text that fits a field with room for the terminator is read back. *)
Lemma read_text_fixed_field w s e :
  0 < w -> encode_utf8 s = Ok e -> ~ In 0 s -> len e <= w - 1 ->
  read_text (fixed_field w e) = Some s.
Proof.
  intros Hw He Hn Hlen. unfold read_text, fixed_field, ljust.
  rewrite slice_to_firstn by lia.
  rewrite firstn_all2 by (unfold len in Hlen; lia).
  rewrite <- app_assoc. cbn [app].
  rewrite cstring_terminated by (eapply encode_utf8_no_null; eassumption).
  rewrite <- (app_nil_r e), (decode_encode s e [] He). cbn.
  now rewrite app_nil_r.
Qed.

(** X7. A path or a name that fits its field with the terminator (at most
    127 or 15 bytes of UTF-8) and holds no U+0000 is read back from the
    field as it was: the text before the first null byte, decoded. *)
Theorem text_field_round_trip (s : str) (e : bytes) :
  encode_utf8 s = Ok e ->
  ~ In 0 s ->
  (len e <= 127 ->
   exists f, path_field s = Ok f /\ read_text f = Some s) /\
  (len e <= 15 ->
   exists f, name_field s = Ok f /\ read_text f = Some s).
Proof.
  intros He Hn. split; intros Hlen.
  - exists (fixed_field 128 e). rewrite path_field_eq, He.
    split; [ reflexivity | ].
    apply (read_text_fixed_field 128 s e); [ lia | assumption .. | lia ].
  - exists (fixed_field 16 e). rewrite name_field_eq, He.
    split; [ reflexivity | ].
    apply (read_text_fixed_field 16 s e); [ lia | assumption .. | lia ].
Qed.

Lemma text_field_round_trip_witness :
  exists f,
    path_field (lit "EFI/zero.bin") = Ok f /\
    read_text f = Some (lit "EFI/zero.bin").
Proof.
  destruct (text_field_round_trip (lit "EFI/zero.bin")
              (bytes_of_string "EFI/zero.bin")) as [H _].
  - vm_compute. reflexivity.
  - vm_compute. intuition discriminate.
  - apply H. by_compute.
Defined.

Section ReadBack.
Variable zlib_compress : bytes -> Z -> bytes.
Variable inflate : bytes -> option bytes.

(** What is stored for a file gives the file back: as it is when the size
    field is 0, inflated otherwise. *)
Lemma stored_read_back (f : str * bytes) :
  (COMPRESS_THRESHOLD <= len (snd f) -> zlib_stream zlib_compress inflate (snd f)) ->
  (if comp_size zlib_compress f =? 0
   then Some (stored zlib_compress f)
   else inflate (stored zlib_compress f)) = Some (snd f).
Proof.
  intros Hz. destruct f as [p d]. unfold comp_size, stored. cbn [snd] in *.
  destruct (compress_file_cases zlib_compress d) as [E|(H1 & H2 & E)];
    rewrite E; cbn [fst snd].
  - reflexivity.
  - destruct (raw_deflate_stream _ _ _ (Hz H1)) as [Hinf Hne].
    pose proof (raw_deflate_nonempty _ _ Hne) as Hpos.
    destruct (Z.eqb_spec (len (raw_deflate zlib_compress d)) 0); [ lia | ].
    exact Hinf.
Qed.

(** The [i]-th file read from a manifest and a data section written for
    [files], whatever follows the data section. *)
Lemma read_file_entries (files : list (str * bytes)) entries rest i f :
  Forall2 (fun f e => manifest_entry_of zlib_compress f = Ok e) files entries ->
  (forall f, In f files ->
     COMPRESS_THRESHOLD <= len (snd f) -> zlib_stream zlib_compress inflate (snd f)) ->
  nth_error files i = Some f ->
  read_file inflate (concat entries)
    (concat (map (stored zlib_compress) files) ++ rest) i
    = Some (snd f).
Proof.
  intros Hall Hz Hi.
  assert (Hne : forall f, In f files ->
            COMPRESS_THRESHOLD <= len (snd f) ->
            zlib_nonempty zlib_compress (snd f)).
  { intros g Hg Hlen. now destruct (raw_deflate_stream _ _ _ (Hz g Hg Hlen)). }
  pose proof (entries_nth _ _ _ Hall i f Hi) as He.
  destruct (manifest_entry_of_ok _ _ _ He) as (_ & _ & Hc & Ho).
  assert (Hss : stored_size (manifest_entry (Z.of_nat i) (concat entries))
                = len (stored zlib_compress f)).
  { unfold stored_size. rewrite Hc, Ho. symmetry. apply stored_len.
    apply Hne. eapply nth_error_In; eassumption. }
  assert (Hraw : field (data_start i (concat entries))
                   (stored_size (manifest_entry (Z.of_nat i) (concat entries)))
                   (concat (map (stored zlib_compress) files) ++ rest)
                 = stored zlib_compress f).
  { rewrite Hss.
    rewrite (data_start_stored _ _ _ Hall Hne i)
      by (apply Nat.lt_le_incl, nth_error_Some; congruence).
    rewrite (nth_error_firstn_split files i f Hi) at 2.
    rewrite map_app, concat_app. cbn [map concat]. rewrite <- !app_assoc.
    apply field_inside; reflexivity. }
  unfold read_file. cbv zeta. rewrite Hraw, Hc.
  apply stored_read_back. apply Hz. eapply nth_error_In; eassumption.
Qed.

End ReadBack.

(** X8. Every file of an architecture is read back from what [pack_arch]
    returns.  For the [i]-th file in collector order, the bytes of the
    data section that the manifest locates (even when other bytes follow
    the data section), inflated when the compressed size is not 0, are the
    contents of the file, and the original size in its entry is their
    length.  ([zlib.compress] is taken to return a zlib stream the decoder
    inverts, for the files of 4096 bytes or more.) *)
Theorem packed_files_read_back zlib_compress inflate fs name esp_dir
  t (manifest data : bytes) (count : Z) :
  pack_arch zlib_compress fs name esp_dir = (t, Ok (manifest, data, count)) ->
  (forall f, In f (collect_files fs esp_dir) ->
     COMPRESS_THRESHOLD <= len (snd f) -> zlib_stream zlib_compress inflate (snd f)) ->
  forall i f rest, nth_error (collect_files fs esp_dir) i = Some f ->
    read_file inflate manifest (data ++ rest) i = Some (snd f) /\
    entry_original_size (manifest_entry (Z.of_nat i) manifest) = len (snd f).
Proof.
  intros Hp Hz i f rest Hi.
  apply pack_arch_ok in Hp. destruct Hp as (entries & Hall & -> & -> & _).
  split.
  - eapply read_file_entries; eassumption.
  - pose proof (entries_nth _ _ _ Hall i f Hi) as He.
    now destruct (manifest_entry_of_ok _ _ _ He) as (_ & _ & _ & Ho).
Qed.

(** The file of 4096 zero bytes, stored on 35 bytes, is read back. *)
Lemma packed_files_read_back_witness :
  let r := pack_arch RefZlib.compress fs_zeros (lit "aarch64") aarch64_esp in
  exists manifest data,
    outcome r = Ok (manifest, data, 2) /\
    read_file RefZlib.inflate manifest data 1 = Some zeros /\
    entry_original_size (manifest_entry 1 manifest) = 4096.
Proof.
  cbv zeta.
  destruct (pack_arch RefZlib.compress fs_zeros (lit "aarch64") aarch64_esp)
    as [t [[[manifest data] count]|err]] eqn:E; [ | vm_compute in E; discriminate ].
  assert (Hc : count = 2).
  { apply (f_equal (fun c => match snd c with Ok (_, _, n) => n | _ => 0 end)) in E.
    cbn [snd] in E. rewrite <- E. vm_compute. reflexivity. }
  destruct (packed_files_read_back _ RefZlib.inflate _ _ _ _ _ _ _ E
              (fun f _ _ => compress_is_zlib_stream (snd f))
              1%nat (lit "zero.bin", zeros) [] eq_refl) as [H1 H2].
  exists manifest, data. cbn [outcome snd]. rewrite Hc.
  rewrite app_nil_r in H1.
  split; [ reflexivity | ]. split; [ exact H1 | exact H2 ].
Defined.

(** The payload around the blob of an architecture. *)
Lemma assemble_split zlib_compress fs arches t payload a arch :
  assemble zlib_compress fs arches = (t, Ok payload) ->
  nth_error arches a = Some arch ->
  exists pre rest,
    payload = pre ++ arch_blob zlib_compress fs arch ++ rest /\
    len pre = header_size + arch_entry_size * len arches
                + len (blobs_before zlib_compress fs arches a).
Proof.
  intros Hasm Ha. apply assemble_ok in Hasm.
  destruct Hasm as (header & entries & Hh & Hsz & Hn & -> & _).
  destruct (pack_header_ok _ _ Hh) as (Hlen & _).
  exists (header ++ concat entries ++ blobs_before zlib_compress fs arches a),
    (concat (map (arch_blob zlib_compress fs) (skipn (S a) arches))).
  split.
  - rewrite (nth_error_firstn_split arches a arch Ha) at 1.
    rewrite map_app, concat_app. cbn [map concat].
    unfold blobs_before. now rewrite <- !app_assoc.
  - assert (Hn' : @len bytes entries = len arches) by exact (f_equal Z.of_nat Hn).
    rewrite !len_app, (len_concat_sized _ _ Hsz), Hlen, Hn'. lia.
Qed.

Lemma skipn_len_app (pre rest : bytes) n :
  n = len pre -> skipn (Z.to_nat n) (pre ++ rest) = rest.
Proof.
  intros ->. unfold len. rewrite Nat2Z.id, skipn_app, skipn_all, Nat.sub_diag.
  reflexivity.
Qed.

(** X9. A payload gives back every file packed into it.  For the [i]-th
    file of the [a]-th architecture, a reader that follows the table entry
    to the manifest, and the manifest to the data, gets the contents of
    the file; and it gets its relative path when this fits the field (at
    most 127 bytes of UTF-8) and holds no U+0000.  ([zlib.compress] is
    taken to return a zlib stream the decoder inverts, for the files of
    4096 bytes or more.) *)
Theorem payload_round_trip zlib_compress inflate fs arches t payload a arch i f :
  assemble zlib_compress fs arches = (t, Ok payload) ->
  nth_error arches a = Some arch ->
  nth_error (collect_files fs (snd arch)) i = Some f ->
  (forall g, In g (collect_files fs (snd arch)) ->
     COMPRESS_THRESHOLD <= len (snd g) -> zlib_stream zlib_compress inflate (snd g)) ->
  extract inflate payload a i = Some (snd f) /\
  (forall e, encode_utf8 (fst f) = Ok e -> len e <= 127 -> ~ In 0 (fst f) ->
     extract_path payload a i = Some (fst f)).
Proof.
  intros Hasm Ha Hi Hz.
  pose proof (assemble_entry_written _ _ _ _ _ _ _ Hasm Ha) as Hw.
  apply entry_written_ok in Hw. destruct Hw as (_ & _ & Hoff & Hcnt & _).
  pose proof (assemble_packed _ _ _ _ _ Hasm) as Hpacked.
  rewrite Forall_forall in Hpacked.
  destruct (Hpacked arch (nth_error_In _ _ Ha)) as (tr & m & d & Hp).
  destruct (packed_blob _ _ _ _ _ _ _ Hp) as (Hb & Hfc & Hm & _).
  destruct (assemble_split _ _ _ _ _ _ _ Hasm Ha) as (pre & rest & -> & Hpre).
  rewrite Hb in *. rewrite Hfc in Hcnt.
  assert (Hman : manifest_of (pre ++ (m ++ d) ++ rest) a = m).
  { unfold manifest_of. rewrite Hoff, Hcnt, <- Hm, <- app_assoc.
    apply field_inside; [ symmetry; exact Hpre | reflexivity ]. }
  assert (Hdat : data_of (pre ++ (m ++ d) ++ rest) a = d ++ rest).
  { unfold data_of. rewrite Hoff, Hcnt, <- Hm.
    rewrite <- app_assoc, app_assoc.
    apply skipn_len_app. rewrite len_app. lia. }
  apply pack_arch_ok in Hp. destruct Hp as (entries & Hall & -> & -> & _).
  split.
  - unfold extract. rewrite Hman, Hdat.
    eapply read_file_entries; eassumption.
  - intros e He Hlen Hn. unfold extract_path. rewrite Hman.
    pose proof (entries_nth _ _ _ Hall i f Hi) as Hent.
    destruct (manifest_entry_of_ok _ _ _ Hent) as (_ & Hpath & _).
    rewrite path_field_eq, He in Hpath. cbn [bind_result] in Hpath.
    injection Hpath as <-.
    apply (read_text_fixed_field 128 (fst f) e); [ lia | assumption .. | lia ].
Qed.

(** The 4096 zero bytes of [x86_64/esp/EFI/zero.bin], behind the blob of
    [aarch64]. *)
Lemma payload_round_trip_witness :
  let payload :=
    match outcome (assemble RefZlib.compress fs_both
                     [(lit "aarch64", aarch64_esp); (lit "x86_64", x86_64_esp)])
    with Ok p => p | Raise _ => [] end in
  extract RefZlib.inflate payload 1 0 = Some zeros /\
  extract_path payload 1 0 = Some (lit "EFI/zero.bin").
Proof.
  destruct (payload_round_trip RefZlib.compress RefZlib.inflate fs_both
    [(lit "aarch64", aarch64_esp); (lit "x86_64", x86_64_esp)]
    (trace (assemble RefZlib.compress fs_both
              [(lit "aarch64", aarch64_esp); (lit "x86_64", x86_64_esp)]))
    (match outcome (assemble RefZlib.compress fs_both
                     [(lit "aarch64", aarch64_esp); (lit "x86_64", x86_64_esp)])
     with Ok p => p | Raise _ => [] end)
    1%nat (lit "x86_64", x86_64_esp) 0%nat (lit "EFI/zero.bin", zeros))
    as [H1 H2].
  - vm_compute. reflexivity.
  - reflexivity.
  - vm_compute. reflexivity.
  - intros g _ _. apply compress_is_zlib_stream.
  - cbv zeta. split; [ exact H1 | ].
    apply (H2 (bytes_of_string "EFI/zero.bin")).
    + vm_compute. reflexivity.
    + by_compute.
    + vm_compute. intuition discriminate.
Defined.

(** ** The order of paths and [sorted] *)

Import FsShape.

Section Lex.
Context {A : Type} (lt eq : A -> A -> bool).
Hypothesis eq_spec : forall a b, eq a b = true <-> a = b.
Hypothesis lt_irrefl : forall a, lt a a = false.
Hypothesis lt_trans : forall a b c, lt a b = true -> lt b c = true -> lt a c = true.
Hypothesis lt_total : forall a b, lt a b = false -> lt b a = false -> a = b.

Lemma eq_refl_true a : eq a a = true.
Proof. now apply eq_spec. Qed.

Lemma lex_lt_irrefl (l : list A) : lex_lt lt eq l l = false.
Proof.
  induction l as [|x l IH]; [ reflexivity | ].
  cbn [lex_lt]. now rewrite lt_irrefl, eq_refl_true.
Qed.

Lemma lex_lt_trans (a : list A) : forall b c,
  lex_lt lt eq a b = true -> lex_lt lt eq b c = true -> lex_lt lt eq a c = true.
Proof.
  induction a as [|x a IH]; intros [|y b] [|z c]; cbn [lex_lt];
    try discriminate; try reflexivity.
  destruct (lt x y) eqn:Hxy.
  - intros _. destruct (lt y z) eqn:Hyz.
    + intros _. now rewrite (lt_trans _ _ _ Hxy Hyz).
    + destruct (eq y z) eqn:Eyz; [ | discriminate ].
      apply eq_spec in Eyz. subst z. intros _. now rewrite Hxy.
  - destruct (eq x y) eqn:Exy; [ | discriminate ].
    apply eq_spec in Exy. subst y. intros Hab.
    destruct (lt x z) eqn:Hxz; [ reflexivity | ].
    destruct (eq x z); [ | discriminate ].
    now apply IH.
Qed.

Lemma lex_lt_total (a : list A) : forall b,
  lex_lt lt eq a b = false -> lex_lt lt eq b a = false -> a = b.
Proof.
  induction a as [|x a IH]; intros [|y b]; cbn [lex_lt];
    try discriminate; try reflexivity.
  destruct (lt x y) eqn:Hxy; [ discriminate | ].
  destruct (lt y x) eqn:Hyx; [ discriminate | ].
  pose proof (lt_total _ _ Hxy Hyx) as ->.
  rewrite eq_refl_true. intros H1 H2. f_equal. now apply IH.
Qed.

(** A common prefix does not count. *)
Lemma lex_lt_app (p a b : list A) :
  lex_lt lt eq (p ++ a) (p ++ b) = lex_lt lt eq a b.
Proof.
  induction p as [|x p IH]; [ reflexivity | ].
  cbn [app lex_lt]. now rewrite lt_irrefl, eq_refl_true.
Qed.

End Lex.

Lemma str_eqb_spec a : forall b, str_eqb a b = true <-> a = b.
Proof.
  induction a as [|x a IH]; intros [|y b]; cbn [str_eqb];
    try (split; [ discriminate | discriminate ]); [ tauto | ].
  rewrite andb_true_iff, Z.eqb_eq, IH. split.
  - intros [-> ->]. reflexivity.
  - intros [= -> ->]. auto.
Qed.

Lemma Z_ltb_total a b : (a <? b) = false -> (b <? a) = false -> a = b.
Proof. intros H1 H2. apply Z.ltb_ge in H1, H2. lia. Qed.

Lemma Z_ltb_trans a b c : (a <? b) = true -> (b <? c) = true -> (a <? c) = true.
Proof. rewrite !Z.ltb_lt. lia. Qed.

Lemma str_lt_irrefl a : str_lt a a = false.
Proof. apply lex_lt_irrefl; [ apply Z.eqb_eq | apply Z.ltb_irrefl ]. Qed.

Lemma str_lt_trans a b c :
  str_lt a b = true -> str_lt b c = true -> str_lt a c = true.
Proof. apply lex_lt_trans; [ apply Z.eqb_eq | apply Z_ltb_trans ]. Qed.

Lemma str_lt_total a b : str_lt a b = false -> str_lt b a = false -> a = b.
Proof. apply lex_lt_total; [ apply Z.eqb_eq | apply Z_ltb_total ]. Qed.

Lemma path_lt_irrefl p : path_lt p p = false.
Proof. apply lex_lt_irrefl; [ intros; apply str_eqb_spec | apply str_lt_irrefl ]. Qed.

Lemma path_lt_trans p q r :
  path_lt p q = true -> path_lt q r = true -> path_lt p r = true.
Proof.
  apply lex_lt_trans; [ intros; apply str_eqb_spec | apply str_lt_trans ].
Qed.

Lemma path_lt_total p q : path_lt p q = false -> path_lt q p = false -> p = q.
Proof.
  apply lex_lt_total; [ intros; apply str_eqb_spec | apply str_lt_total ].
Qed.

Lemma path_lt_app base p q : path_lt (base ++ p) (base ++ q) = path_lt p q.
Proof.
  apply lex_lt_app; [ intros; apply str_eqb_spec | apply str_lt_irrefl ].
Qed.

Section KeySort.
Context {A K : Type} (key : A -> K) (klt : K -> K -> bool).
Hypothesis klt_irrefl : forall a, klt a a = false.
Hypothesis klt_trans :
  forall a b c, klt a b = true -> klt b c = true -> klt a c = true.
Hypothesis klt_total : forall a b, klt a b = false -> klt b a = false -> a = b.

Let lt (a b : A) : bool := klt (key a) (key b).
Let le (a b : A) : Prop := klt (key b) (key a) = false.
Let below (a b : A) : Prop := klt (key a) (key b) = true.

Lemma klt_asym a b : klt a b = true -> klt b a = false.
Proof.
  intros H. destruct (klt b a) eqn:E; [ | reflexivity ].
  pose proof (klt_trans _ _ _ H E) as H'. now rewrite klt_irrefl in H'.
Qed.

Lemma le_trans a b c : le a b -> le b c -> le a c.
Proof.
  unfold le. intros Hab Hbc.
  destruct (klt (key c) (key a)) eqn:Hca; [ | reflexivity ].
  destruct (klt (key a) (key b)) eqn:E.
  - pose proof (klt_trans _ _ _ Hca E) as H. congruence.
  - pose proof (klt_total _ _ E Hab) as Heq. rewrite Heq in Hca. congruence.
Qed.

Lemma insert_sorted_perm x (l : list A) :
  Permutation (insert_sorted lt x l) (x :: l).
Proof.
  induction l as [|y l IH]; cbn [insert_sorted]; [ reflexivity | ].
  destruct (lt x y); [ reflexivity | ].
  rewrite IH. apply perm_swap.
Qed.

Lemma sorted_acc_perm (l : list A) : forall acc,
  Permutation (fold_left (fun acc x => insert_sorted lt x acc) l acc) (l ++ acc).
Proof.
  induction l as [|x l IH]; intros acc; cbn [fold_left app]; [ reflexivity | ].
  rewrite IH, insert_sorted_perm. symmetry. apply Permutation_middle.
Qed.

(** [sorted] returns the elements it was given. *)
Lemma sorted_perm (l : list A) : Permutation (sorted lt l) l.
Proof. unfold sorted. rewrite sorted_acc_perm. now rewrite app_nil_r. Qed.

Lemma insert_sorted_sorted x (l : list A) :
  StronglySorted le l -> StronglySorted le (insert_sorted lt x l).
Proof.
  induction 1 as [|y l Hs IH Hall]; cbn [insert_sorted].
  - repeat constructor.
  - destruct (lt x y) eqn:E; unfold lt in E.
    + constructor; [ now constructor | ].
      assert (Hxy : le x y) by (apply klt_asym; exact E).
      constructor; [ exact Hxy | ].
      eapply Forall_impl; [ | exact Hall ].
      intros z Hz. eapply le_trans; eassumption.
    + constructor; [ exact IH | ].
      eapply Permutation_Forall.
      * symmetry. apply insert_sorted_perm.
      * constructor; [ exact E | exact Hall ].
Qed.

(** [sorted] returns them in order. *)
Lemma sorted_sorted (l : list A) : StronglySorted le (sorted lt l).
Proof.
  unfold sorted.
  assert (H : forall acc, StronglySorted le acc ->
            StronglySorted le (fold_left (fun acc x => insert_sorted lt x acc) l acc)).
  { induction l as [|x l IH]; intros acc Hacc; cbn [fold_left]; [ exact Hacc | ].
    apply IH. now apply insert_sorted_sorted. }
  apply H. constructor.
Qed.

(** In strict order, when the keys are pairwise different. *)
Lemma sorted_strict (l : list A) :
  NoDup (map key l) -> StronglySorted below (sorted lt l).
Proof.
  intros Hnd.
  assert (Hnd' : NoDup (map key (sorted lt l))).
  { eapply Permutation_NoDup; [ | exact Hnd ].
    apply Permutation_map. symmetry. apply sorted_perm. }
  pose proof (sorted_sorted l) as Hs.
  induction Hs as [|y s Hs IH Hall]; [ constructor | ].
  cbn [map] in Hnd'. inversion Hnd' as [|? ? Hnin Hnd'']; subst.
  constructor; [ now apply IH | ].
  rewrite Forall_forall in Hall |- *. intros z Hz.
  specialize (Hall z Hz). unfold le in Hall. unfold below.
  destruct (klt (key y) (key z)) eqn:E; [ reflexivity | ].
  exfalso. apply Hnin. rewrite (klt_total _ _ E Hall).
  now apply in_map.
Qed.

Lemma filter_strict (f : A -> bool) (l : list A) :
  StronglySorted below l -> StronglySorted below (filter f l).
Proof.
  induction 1 as [|y l Hs IH Hall]; cbn [filter]; [ constructor | ].
  destruct (f y); [ | exact IH ].
  constructor; [ exact IH | ].
  rewrite Forall_forall in Hall |- *. intros z Hz.
  apply filter_In in Hz. now apply Hall.
Qed.

(** Two lists in strict order that hold the same elements are equal. *)
Lemma strict_unique (l1 : list A) : forall l2,
  StronglySorted below l1 -> StronglySorted below l2 ->
  (forall x, In x l1 <-> In x l2) -> l1 = l2.
Proof.
  induction l1 as [|x l1 IH]; intros [|y l2] H1 H2 Hin.
  - reflexivity.
  - exfalso. apply (Hin y). now left.
  - exfalso. apply (Hin x). now left.
  - inversion H1 as [|? ? Hs1 Hall1]; subst.
    inversion H2 as [|? ? Hs2 Hall2]; subst.
    rewrite Forall_forall in Hall1, Hall2.
    assert (Hxy : x = y).
    { destruct (proj1 (Hin x) (or_introl eq_refl)) as [E|Hx]; [ now symmetry | ].
      destruct (proj2 (Hin y) (or_introl eq_refl)) as [E|Hy]; [ exact E | ].
      pose proof (Hall2 x Hx) as B1. pose proof (Hall1 y Hy) as B2.
      unfold below in B1, B2. rewrite (klt_asym _ _ B1) in B2. discriminate. }
    subst y. f_equal. apply IH; [ assumption | assumption | ].
    assert (Hnot1 : ~ In x l1).
    { intros Hx. pose proof (Hall1 x Hx) as B. unfold below in B.
      now rewrite klt_irrefl in B. }
    assert (Hnot2 : ~ In x l2).
    { intros Hx. pose proof (Hall2 x Hx) as B. unfold below in B.
      now rewrite klt_irrefl in B. }
    intros z. split; intros Hz.
    + destruct (proj1 (Hin z) (or_intror Hz)) as [E|H]; [ congruence | exact H ].
    + destruct (proj2 (Hin z) (or_intror Hz)) as [E|H]; [ congruence | exact H ].
Qed.

End KeySort.

(** ** Directory trees *)

(** Induction on a tree, with the property known of every child. *)
Lemma node_induction (P : node -> Prop) :
  (forall data, P (File data)) ->
  (forall entries, Forall (fun e => P (snd e)) entries -> P (Dir entries)) ->
  forall n, P n.
Proof.
  intros HF HD. fix IH 1. intros [data|entries].
  - apply HF.
  - apply HD. induction entries as [|[name child] es IHes].
    + constructor.
    + constructor; [ exact (IH child) | exact IHes ].
Qed.

Lemma descendants_Dir es :
  descendants (Dir es) =
  flat_map (fun e => ([fst e], snd e)
                       :: map (fun pn => (fst e :: fst pn, snd pn))
                            (descendants (snd e))) es.
Proof.
  induction es as [|[name child] es IH]; [ reflexivity | ].
  cbn [flat_map fst snd]. rewrite <- IH. reflexivity.
Qed.

Lemma wf_Dir es :
  wf (Dir es) = distinct (map fst es) && forallb (fun e => wf (snd e)) es.
Proof.
  cbn [wf]. f_equal.
  induction es as [|[name child] es IH]; [ reflexivity | ].
  cbn [forallb snd]. rewrite <- IH. reflexivity.
Qed.

Lemma find_entry_In name es c : find_entry name es = Some c -> In (name, c) es.
Proof.
  induction es as [|[n ch] es IH]; cbn [find_entry]; [ discriminate | ].
  destruct (str_eqb n name) eqn:E.
  - apply str_eqb_spec in E. intros H. left. congruence.
  - intros H. right. now apply IH.
Qed.

Lemma distinct_not_in name (l : list str) :
  existsb (str_eqb name) l = false -> ~ In name l.
Proof.
  intros H Hin.
  assert (H' : existsb (str_eqb name) l = true).
  { apply existsb_exists. exists name. split; [ exact Hin | ].
    now apply str_eqb_spec. }
  congruence.
Qed.

Lemma find_entry_distinct name c es :
  distinct (map fst es) = true -> In (name, c) es ->
  find_entry name es = Some c.
Proof.
  induction es as [|[n ch] es IH]; cbn [map fst distinct find_entry In];
    [ intros _ [] | ].
  intros Hd [E|Hin].
  - inversion E; subst.
    now rewrite (proj2 (str_eqb_spec name name) eq_refl).
  - apply andb_true_iff in Hd as [Hn Hd]. apply negb_true_iff in Hn.
    destruct (str_eqb n name) eqn:E.
    + apply str_eqb_spec in E. subst n. exfalso.
      apply (distinct_not_in _ _ Hn). apply (in_map fst _ _ Hin).
    + now apply IH.
Qed.

Lemma lookup_app fs : forall p q,
  lookup fs (p ++ q) =
  match lookup fs p with Some n => lookup n q | None => None end.
Proof.
  intros p. revert fs.
  induction p as [|name p IH]; intros fs q; [ reflexivity | ].
  cbn [app lookup]. destruct fs as [d|es]; [ reflexivity | ].
  destruct (find_entry name es); [ apply IH | reflexivity ].
Qed.

Lemma wf_child name es c :
  wf (Dir es) = true -> In (name, c) es -> wf c = true.
Proof.
  rewrite wf_Dir. intros H Hin. apply andb_true_iff in H as [_ H].
  rewrite forallb_forall in H. exact (H _ Hin).
Qed.

(** Well-formedness is inherited by what a path leads to. *)
Lemma wf_lookup p : forall fs n,
  wf fs = true -> lookup fs p = Some n -> wf n = true.
Proof.
  induction p as [|name p IH]; intros fs n Hwf; cbn [lookup].
  - congruence.
  - destruct fs as [d|es]; [ discriminate | ].
    destruct (find_entry name es) as [c|] eqn:E; [ | discriminate ].
    apply IH. eapply wf_child; [ exact Hwf | ]. apply find_entry_In. exact E.
Qed.

Lemma descendants_In es rel c :
  In (rel, c) (descendants (Dir es)) <->
  exists name child, In (name, child) es /\
    ((rel, c) = ([name], child) \/
     exists rel', rel = name :: rel' /\ In (rel', c) (descendants child)).
Proof.
  rewrite descendants_Dir, in_flat_map. split.
  - intros [[name child] [Hin H]]. exists name, child. split; [ exact Hin | ].
    cbn [fst snd In] in H. destruct H as [H|H]; [ left; now symmetry | right ].
    apply in_map_iff in H as [[rel' c'] [E H]]. cbn [fst snd] in E.
    exists rel'. inversion E; subst. split; [ reflexivity | exact H ].
  - intros [name [child [Hin H]]]. exists (name, child). split; [ exact Hin | ].
    cbn [fst snd In]. destruct H as [H|[rel' [E H]]]; [ left; now symmetry | right ].
    apply in_map_iff. exists (rel', c). split; [ now subst | exact H ].
Qed.

Lemma descendants_nonempty n rel c : In (rel, c) (descendants n) -> rel <> [].
Proof.
  destruct n as [d|es]; [ intros [] | ].
  rewrite descendants_In. intros [name [child [_ [H|[rel' [E _]]]]]].
  - inversion H. discriminate.
  - subst. discriminate.
Qed.

(** The paths [descendants] lists are those that lead somewhere. *)
Lemma descendants_spec n :
  wf n = true ->
  forall rel c,
    In (rel, c) (descendants n) <-> rel <> [] /\ lookup n rel = Some c.
Proof.
  induction n as [d|es IH] using node_induction; intros Hwf rel c.
  - split; [ intros [] | ]. intros [Hne H]. destruct rel; [ congruence | discriminate ].
  - rewrite Forall_forall in IH. rewrite descendants_In. split.
    + intros [name [child [Hin H]]].
      assert (Hfind : find_entry name es = Some child).
      { apply find_entry_distinct; [ | exact Hin ].
        rewrite wf_Dir in Hwf. now apply andb_true_iff in Hwf as [Hd _]. }
      destruct H as [H|[rel' [E H]]].
      * inversion H; subst. split; [ discriminate | ].
        cbn [lookup]. now rewrite Hfind.
      * subst rel. split; [ discriminate | ].
        cbn [lookup]. rewrite Hfind.
        apply (IH (name, child) Hin); [ | exact H ].
        eapply wf_child; eassumption.
    + intros [Hne H]. destruct rel as [|name rel']; [ congruence | ].
      cbn [lookup] in H.
      destruct (find_entry name es) as [child|] eqn:E; [ | discriminate ].
      apply find_entry_In in E. exists name, child. split; [ exact E | ].
      destruct rel' as [|n' rel''].
      * left. cbn [lookup] in H. inversion H. reflexivity.
      * right. exists (n' :: rel''). split; [ reflexivity | ].
        apply (IH (name, child) E); [ eapply wf_child; eassumption | ].
        split; [ discriminate | exact H ].
Qed.

Lemma cons_injective {A} (x : A) : Finite.Injective (cons x).
Proof. intros a b H. congruence. Qed.

Lemma app_injective {A} (p : list A) : Finite.Injective (app p).
Proof. intros a b H. now apply app_inv_head in H. Qed.

(** No path is listed twice. *)
Lemma descendants_NoDup n :
  wf n = true -> NoDup (map fst (descendants n)).
Proof.
  induction n as [d|es IH] using node_induction; intros Hwf; [ constructor | ].
  rewrite wf_Dir in Hwf. apply andb_true_iff in Hwf as [Hd Hall].
  assert (Hhead : forall es' q, In q (map fst (descendants (Dir es'))) ->
            exists name rest, q = name :: rest /\ In name (map fst es')).
  { intros es' q Hq. apply in_map_iff in Hq as [[rel c] [E Hq]].
    cbn [fst] in E. subst rel. apply descendants_In in Hq.
    destruct Hq as [name [child [Hin H]]].
    assert (Hname : In name (map fst es')) by apply (in_map fst _ _ Hin).
    destruct H as [H|[rel' [E _]]].
    - inversion H. now exists name, [].
    - now exists name, rel'. }
  induction es as [|[name child] es IHes]; [ constructor | ].
  rewrite descendants_Dir. cbn [flat_map fst snd]. rewrite <- descendants_Dir.
  cbn [map fst distinct forallb snd] in Hd, Hall.
  apply andb_true_iff in Hd as [Hn Hd]. apply negb_true_iff in Hn.
  apply andb_true_iff in Hall as [Hc Hall].
  inversion IH as [|? ? IHc IHrest]; subst. cbn [snd] in IHc.
  rewrite map_app. cbn [map fst]. rewrite map_map. cbn [fst].
  rewrite <- (map_map fst (cons name)).
  apply NoDup_app.
  - constructor.
    + intros Hin. apply in_map_iff in Hin as [rel [E Hin]].
      apply in_map_iff in Hin as [[rel' c] [E' Hin]]. cbn [fst] in E'. subst rel'.
      apply descendants_nonempty in Hin. congruence.
    + apply Finite.Injective_map_NoDup; [ apply cons_injective | now apply IHc ].
  - now apply IHes.
  - intros q Hq Hq'.
    apply Hhead in Hq' as [name' [rest [E Hname']]].
    assert (Hq'' : exists rest', q = name :: rest').
    { destruct Hq as [Hq|Hq]; [ now exists [] | ].
      apply in_map_iff in Hq as [rel [E' _]]. now exists rel. }
    destruct Hq'' as [rest' E']. rewrite E' in E. inversion E. subst name'.
    exact (distinct_not_in _ _ Hn Hname').
Qed.

(** ** [collect_files] *)

Section Collect.

Let by_path := fun a b : path * node => path_lt (fst a) (fst b).
Let regular := fun x : path * node => is_file (snd x).
Let entry := fun (esp : path) (x : path * node) =>
  (replace_char 92 47 (str_of_path (relative_to esp (fst x))),
   read_bytes (snd x)).
Let found := fun (fs : node) (p : path) =>
  filter regular (sorted by_path (rglob fs p)).

(** The loop keeps the regular files and maps each to its entry. *)
Lemma collect_loop_filter esp l :
  collect_loop esp l = map (entry esp) (filter regular l).
Proof.
  induction l as [|[q n] l IH]; [ reflexivity | ].
  cbn [collect_loop filter]. unfold regular at 1. cbn [snd].
  destruct (is_file n); [ | exact IH ].
  cbn [map]. rewrite IH. reflexivity.
Qed.

Lemma relative_to_app (p rel : path) : relative_to p (p ++ rel) = rel.
Proof. unfold relative_to. induction p as [|x p IH]; [ reflexivity | exact IH ]. Qed.

(** What [rglob] finds: the paths below the base that lead somewhere. *)
Lemma rglob_spec fs p :
  wf fs = true ->
  forall q c,
    In (q, c) (rglob fs p) <->
    exists rel, rel <> [] /\ q = p ++ rel /\ lookup fs q = Some c.
Proof.
  intros Hwf q c. unfold rglob. destruct (lookup fs p) as [n|] eqn:Hp.
  - pose proof (descendants_spec n (wf_lookup _ _ _ Hwf Hp)) as Hd.
    rewrite in_map_iff. split.
    + intros [[rel c'] [E Hin]]. cbn [fst snd] in E. inversion E; subst.
      apply Hd in Hin as [Hne Hl]. exists rel.
      split; [ exact Hne | split; [ reflexivity | ] ].
      rewrite lookup_app, Hp. exact Hl.
    + intros [rel [Hne [E Hl]]]. subst q. rewrite lookup_app, Hp in Hl.
      exists (rel, c). split; [ reflexivity | apply Hd; now split ].
  - split; [ intros [] | ]. intros [rel [_ [E Hl]]]. subst q.
    rewrite lookup_app, Hp in Hl. discriminate.
Qed.

Lemma rglob_NoDup fs p : wf fs = true -> NoDup (map fst (rglob fs p)).
Proof.
  intros Hwf. unfold rglob.
  destruct (lookup fs p) as [n|] eqn:Hp; [ | constructor ].
  rewrite map_map. cbn [fst]. rewrite <- (map_map fst (app p)).
  apply Finite.Injective_map_NoDup; [ apply app_injective | ].
  apply descendants_NoDup. eapply wf_lookup; eassumption.
Qed.

Lemma found_strict fs p :
  wf fs = true ->
  StronglySorted (fun a b => path_lt (fst a) (fst b) = true) (found fs p).
Proof.
  intros Hwf. apply (filter_strict fst path_lt).
  apply (sorted_strict fst path_lt path_lt_irrefl path_lt_trans path_lt_total).
  now apply rglob_NoDup.
Qed.

Lemma found_In fs p :
  wf fs = true ->
  forall q c,
    In (q, c) (found fs p) <->
    exists rel d,
      rel <> [] /\ q = p ++ rel /\ c = File d /\ kind_at fs q = Regular d.
Proof.
  intros Hwf q c. unfold found. rewrite filter_In.
  assert (Hperm : In (q, c) (sorted by_path (rglob fs p))
                  <-> In (q, c) (rglob fs p)).
  { split; apply Permutation_in; [ | symmetry ];
      apply (sorted_perm fst path_lt). }
  rewrite Hperm, (rglob_spec fs p Hwf). unfold regular, kind_at. cbn [snd].
  split.
  - intros [[rel [Hne [E Hl]]] Hf]. destruct c as [d|es]; [ | discriminate ].
    exists rel, d. rewrite Hl. repeat split; auto.
  - intros [rel [d [Hne [E [Ec Hk]]]]]. subst c. split; [ | reflexivity ].
    exists rel. split; [ exact Hne | split; [ exact E | ] ].
    destruct (lookup fs q) as [[d'|es]|]; congruence.
Qed.

Lemma collect_files_found fs p :
  collect_files fs p = map (entry p) (found fs p).
Proof.
  unfold collect_files. rewrite collect_loop_filter.
  destruct (exists_ fs p) eqn:E; [ reflexivity | ].
  cbn [negb]. unfold found, rglob. unfold exists_ in E.
  destruct (lookup fs p); [ discriminate | reflexivity ].
Qed.

(** Two trees that show the same thing at every path hold the same
    files. *)
Lemma collect_files_same fs1 fs2 p :
  wf fs1 = true -> wf fs2 = true ->
  (forall q, kind_at fs1 q = kind_at fs2 q) ->
  collect_files fs1 p = collect_files fs2 p.
Proof.
  intros H1 H2 Hk. rewrite !collect_files_found. f_equal.
  apply (strict_unique fst path_lt path_lt_irrefl path_lt_trans);
    [ now apply found_strict | now apply found_strict | ].
  intros [q c]. rewrite (found_In fs1 p H1), (found_In fs2 p H2).
  split; intros [rel [d [Hne [E [Ec Hq]]]]]; exists rel, d;
    (split; [ exact Hne | split; [ exact E | split; [ exact Ec | ] ] ]);
    [ rewrite <- Hk | rewrite Hk ]; exact Hq.
Qed.

Lemma exists_same fs1 fs2 p :
  (forall q, kind_at fs1 q = kind_at fs2 q) -> exists_ fs1 p = exists_ fs2 p.
Proof.
  intros Hk. specialize (Hk p). unfold kind_at, exists_ in *.
  destruct (lookup fs1 p) as [[d1|es1]|], (lookup fs2 p) as [[d2|es2]|];
    congruence.
Qed.

End Collect.

(** ** Trees that show the same files *)

Lemma bytes_eqb_eq a : forall b, bytes_eqb a b = true -> a = b.
Proof.
  induction a as [|x a IH]; intros [|y b]; cbn [bytes_eqb];
    try discriminate; [ reflexivity | ].
  intros H. apply andb_true_iff in H as [Hx H].
  apply Byte.byte_dec_bl in Hx. f_equal; [ exact Hx | now apply IH ].
Qed.

Lemma covers_Dir es1 es2 :
  covers (Dir es1) (Dir es2) =
  forallb (fun e => match find_entry (fst e) es2 with
                    | Some c' => covers (snd e) c'
                    | None => false
                    end) es1.
Proof.
  cbn [covers]. induction es1 as [|[name child] es IH]; [ reflexivity | ].
  cbn [forallb fst snd]. rewrite <- IH. reflexivity.
Qed.

Lemma covers_lookup n1 : forall n2,
  covers n1 n2 = true ->
  forall q c1, lookup n1 q = Some c1 ->
  exists c2, lookup n2 q = Some c2 /\ covers c1 c2 = true.
Proof.
  induction n1 as [d|es IH] using node_induction; intros n2 Hc q c1 Hl.
  - destruct q; [ | discriminate ]. cbn [lookup] in Hl. inversion Hl; subst.
    exists n2. now split.
  - destruct q as [|name q].
    + cbn [lookup] in Hl. inversion Hl; subst. exists n2. now split.
    + destruct n2 as [d2|es2]; [ discriminate | ].
      rewrite covers_Dir, forallb_forall in Hc.
      cbn [lookup] in Hl |- *.
      destruct (find_entry name es) as [child|] eqn:E; [ | discriminate ].
      apply find_entry_In in E. specialize (Hc _ E). cbn [fst snd] in Hc.
      destruct (find_entry name es2) as [child2|]; [ | discriminate ].
      rewrite Forall_forall in IH. exact (IH _ E child2 Hc q c1 Hl).
Qed.

(** Two trees that cover each other show the same thing at every path. *)
Lemma covers_same n1 n2 :
  covers n1 n2 = true -> covers n2 n1 = true ->
  forall q, kind_at n1 q = kind_at n2 q.
Proof.
  intros H12 H21 q. unfold kind_at.
  destruct (lookup n1 q) as [c1|] eqn:E1.
  - destruct (covers_lookup _ _ H12 _ _ E1) as [c2 [E2 Hc]]. rewrite E2.
    destruct c1 as [d1|es1], c2 as [d2|es2]; cbn [covers] in Hc;
      try discriminate; [ | reflexivity ].
    apply bytes_eqb_eq in Hc. congruence.
  - destruct (lookup n2 q) as [c2|] eqn:E2; [ | reflexivity ].
    destruct (covers_lookup _ _ H21 _ _ E2) as [c1 [E1' _]]. congruence.
Qed.

Lemma bind_ext {A B} (c : io A) (k1 k2 : A -> io B) :
  (forall a, k1 a = k2 a) -> bind c k1 = bind c k2.
Proof. intros H. destruct c as [t [a|e]]; cbn [bind]; now rewrite ?H. Qed.

Lemma for_each_ext {A S} (f g : S -> A -> io S) l :
  (forall s x, f s x = g s x) -> forall s, for_each l f s = for_each l g s.
Proof.
  intros H. induction l as [|x l IH]; intros s; [ reflexivity | ].
  cbn [for_each]. rewrite H. now apply bind_ext.
Qed.

Section Relisted.
Variable zlib_compress : bytes -> Z -> bytes.
Variables fs1 fs2 : node.
Hypothesis wf1 : wf fs1 = true.
Hypothesis wf2 : wf fs2 = true.
Hypothesis same : forall q, kind_at fs1 q = kind_at fs2 q.

Lemma find_arches_same build_dir names :
  find_arches fs1 build_dir names = find_arches fs2 build_dir names.
Proof.
  induction names as [|name names IH]; [ reflexivity | ].
  cbn [find_arches]. rewrite (exists_same fs1 fs2 _ same), IH. reflexivity.
Qed.

Lemma pack_arch_same name p :
  pack_arch zlib_compress fs1 name p = pack_arch zlib_compress fs2 name p.
Proof.
  unfold pack_arch. now rewrite (collect_files_same fs1 fs2 p wf1 wf2 same).
Qed.

Lemma pack_entry_same st a :
  pack_entry zlib_compress fs1 st a = pack_entry zlib_compress fs2 st a.
Proof. destruct a as [name p]. unfold pack_entry. now rewrite pack_arch_same. Qed.

Lemma assemble_same arches :
  assemble zlib_compress fs1 arches = assemble zlib_compress fs2 arches.
Proof.
  unfold assemble. apply bind_ext. intros header.
  now rewrite (for_each_ext _ _ arches pack_entry_same).
Qed.

Lemma main_with_same names build_dir output :
  main_with zlib_compress names fs1 build_dir output
  = main_with zlib_compress names fs2 build_dir output.
Proof.
  unfold main_with. rewrite find_arches_same. apply bind_ext.
  intros [|a arches]; [ reflexivity | ]. now rewrite assemble_same.
Qed.

End Relisted.

(** ** Paths as text *)















(** ** What [collect_files] returns *)

(** X10.  In a tree where no directory holds a name twice,
    [collect_files] returns exactly the regular files below [esp_dir]:
    a pair (path, data) is in the list if and only if [esp_dir] followed
    by some components leads to a regular file holding [data], and the
    path is these components joined by slashes, backslashes replaced.
    Directories, and [esp_dir] itself, are not listed; when [esp_dir]
    does not exist nothing is. *)
Theorem collect_files_lists_regular_files
  (fs : node) (esp_dir : path) (rel_str : str) (data : bytes) :
  wf fs = true ->
  (In (rel_str, data) (collect_files fs esp_dir) <->
   exists rel,
     rel <> [] /\
     kind_at fs (esp_dir ++ rel) = Regular data /\
     rel_str = replace_char 92 47 (str_of_path rel)).
Proof.
  intros Hwf. rewrite collect_files_found, in_map_iff. split.
  - intros [[q c] [E Hin]]. apply (found_In fs esp_dir Hwf) in Hin.
    destruct Hin as [rel [d [Hne [Eq [Ec Hk]]]]]. subst q c.
    cbn [fst snd read_bytes] in E. rewrite relative_to_app in E.
    inversion E; subst. exists rel.
    split; [ exact Hne | split; [ exact Hk | reflexivity ] ].
  - intros [rel [Hne [Hk E]]]. exists (esp_dir ++ rel, File data). split.
    + cbn [fst snd read_bytes]. rewrite relative_to_app. now subst.
    + apply (found_In fs esp_dir Hwf). exists rel, data.
      split; [ exact Hne | split; [ reflexivity | split; [ reflexivity | exact Hk ] ] ].
Qed.

Lemma collect_files_lists_regular_files_witness :
  wf fs_both = true /\
  In (lit "EFI/zero.bin", zeros) (collect_files fs_both x86_64_esp).
Proof.
  split; [ reflexivity | ].
  apply (collect_files_lists_regular_files fs_both x86_64_esp);
    [ reflexivity | ].
  exists [lit "EFI"; lit "zero.bin"].
  split; [ discriminate | split; reflexivity ].
Defined.

(** The files found, by their paths from the base. *)
Lemma found_relative fs p (l : list (path * node)) :
  StronglySorted (fun a b => path_lt (fst a) (fst b) = true) l ->
  (forall q c, In (q, c) l ->
     exists rel d,
       rel <> [] /\ q = p ++ rel /\ c = File d /\ kind_at fs q = Regular d) ->
  let files := map (fun x => (relative_to p (fst x), read_bytes (snd x))) l in
  StronglySorted (fun f g => path_lt (fst f) (fst g) = true) files /\
  Forall (fun f => fst f <> [] /\ kind_at fs (p ++ fst f) = Regular (snd f))
    files.
Proof.
  intros Hs. induction Hs as [|[q c] l Hs IH Hall]; intros Hin files.
  - split; constructor.
  - destruct IH as [IHs IHf].
    { intros q' c' H. apply Hin. now right. }
    destruct (Hin q c (or_introl eq_refl)) as [rel [d [Hne [Eq [Ec Hk]]]]].
    subst q c. subst files. cbn [map fst snd read_bytes].
    rewrite relative_to_app. split.
    + constructor; [ exact IHs | ].
      rewrite Forall_forall in Hall |- *. intros f Hf.
      apply in_map_iff in Hf as [[q' c'] [E Hq']]. subst f.
      pose proof (Hall _ Hq') as Hlt. cbn [fst] in Hlt |- *.
      destruct (Hin q' c' (or_intror Hq')) as [rel' [d' [_ [Eq' _]]]].
      subst q'. rewrite relative_to_app. now rewrite path_lt_app in Hlt.
    + constructor; [ | exact IHf ]. cbn [fst snd]. now split.
Qed.

(** X11.  In a tree where no directory holds a name twice, the list
    [collect_files] returns follows the order of the paths: it is the
    image of a list of (relative path, data) pairs, each a regular file
    below [esp_dir], whose paths increase strictly in the order of
    [pathlib] (component by component).  So no file is listed twice, and
    the order does not depend on the order in which the directories list
    their entries. *)
Theorem collect_files_in_path_order (fs : node) (esp_dir : path) :
  wf fs = true ->
  exists files : list (path * bytes),
    collect_files fs esp_dir
    = map (fun f => (replace_char 92 47 (str_of_path (fst f)), snd f)) files /\
    StronglySorted (fun f g => path_lt (fst f) (fst g) = true) files /\
    Forall (fun f => fst f <> [] /\
                     kind_at fs (esp_dir ++ fst f) = Regular (snd f)) files.
Proof.
  intros Hwf. rewrite collect_files_found.
  pose proof (found_strict fs esp_dir Hwf) as Hs.
  pose proof (found_In fs esp_dir Hwf) as Hin.
  destruct (found_relative fs esp_dir _ Hs (fun q c => proj1 (Hin q c)))
    as [Hs' Hf].
  eexists. split; [ | split; [ exact Hs' | exact Hf ] ].
  rewrite map_map. reflexivity.
Qed.

Lemma collect_files_in_path_order_witness :
  wf fs_both = true /\
  exists files : list (path * bytes),
    collect_files fs_both x86_64_esp
    = map (fun f => (replace_char 92 47 (str_of_path (fst f)), snd f)) files /\
    StronglySorted (fun f g => path_lt (fst f) (fst g) = true) files /\
    Forall (fun f => fst f <> [] /\
                     kind_at fs_both (x86_64_esp ++ fst f) = Regular (snd f))
      files.
Proof.
  split; [ reflexivity | ].
  apply (collect_files_in_path_order fs_both x86_64_esp). reflexivity.
Defined.

(** X12.  The run depends on what the file system shows, not on the
    order in which its directories list their entries: for two trees
    without repeated names in which every path leads to the same kind of
    thing (nothing, a directory, or a regular file with the same bytes),
    [collect_files] returns the same list for every directory, and
    [main] prints the same messages, writes the same payload and returns
    the same status. *)
Theorem listing_order_irrelevant
  (zlib_compress : bytes -> Z -> bytes) (fs1 fs2 : node) :
  wf fs1 = true -> wf fs2 = true ->
  (forall q, kind_at fs1 q = kind_at fs2 q) ->
  (forall esp_dir, collect_files fs1 esp_dir = collect_files fs2 esp_dir) /\
  (forall names build_dir output,
     main_with zlib_compress names fs1 build_dir output
     = main_with zlib_compress names fs2 build_dir output).
Proof.
  intros H1 H2 Hk. split.
  - intros esp_dir. now apply collect_files_same.
  - intros names build_dir output. now apply main_with_same.
Qed.

Lemma listing_order_irrelevant_witness :
  wf fs_both = true /\ wf fs_both_relisted = true /\
  fs_both <> fs_both_relisted /\
  collect_files fs_both x86_64_esp = collect_files fs_both_relisted x86_64_esp /\
  main RefZlib.compress fs_both build_dir output
  = main RefZlib.compress fs_both_relisted build_dir output.
Proof.
  assert (Hw1 : wf fs_both = true) by reflexivity.
  assert (Hw2 : wf fs_both_relisted = true) by reflexivity.
  assert (Hk : forall q, kind_at fs_both q = kind_at fs_both_relisted q).
  { apply covers_same; vm_compute; reflexivity. }
  destruct (listing_order_irrelevant RefZlib.compress _ _ Hw1 Hw2 Hk)
    as [Hc Hm].
  split; [ exact Hw1 | split; [ exact Hw2 | split; [ discriminate | ] ] ].
  split; [ exact (Hc x86_64_esp) | exact (Hm candidates build_dir output) ].
Defined.



(** The condition on backslashes is needed: the file named [a\b] and the
    file [b] of the directory [a] both get the path [a/b]. *)
Example backslash_name_collides :
  wf fs_backslash = true /\
  plain_below fs_backslash aarch64_esp = false /\
  map fst (collect_files fs_backslash aarch64_esp) = [lit "a/b"; lit "a/b"].
Proof. repeat split; vm_compute; reflexivity. Qed.
